(** * scim-proxy: the rule matcher, the response synthesizer, the body
    transformer, the forwarder and the request handler

  A shallow embedding of [src/config.ts], [src/proxy.ts] and the [fetch]
  handler of [src/index.ts].  JavaScript strings are modelled as [string]
  (one [ascii] per code unit), JSON values as the tree [JSValue], and the
  impure parts of the host (the console, [crypto.randomUUID], [Date], the
  upstream [fetch]) as an explicit [World] threaded through a small monad. *)

From Stdlib Require Import String Ascii List Bool Arith NArith ZArith Lia.
From Stdlib Require Import DecimalString.
From Stdlib Require DecimalFacts DecimalN.
Import ListNotations.
Local Open Scope list_scope.
Local Open Scope string_scope.

(* ===================================================================== *)
(** ** The string methods the code calls *)
(* ===================================================================== *)

Module JSString.

(** [s.startsWith(pre)] *)
Fixpoint startsWith (s pre : string) : bool :=
  match pre, s with
  | EmptyString, _ => true
  | String _ _, EmptyString => false
  | String p pre', String c s' => Ascii.eqb c p && startsWith s' pre'
  end.

(** [s.slice(n)] for [0 <= n]: the code units from position [n] on. *)
Fixpoint slice (s : string) (n : nat) : string :=
  match n, s with
  | O, _ => s
  | S _, EmptyString => EmptyString
  | S n', String _ s' => slice s' n'
  end.

Definition is_lower (c : ascii) : bool :=
  Nat.leb 97 (nat_of_ascii c) && Nat.leb (nat_of_ascii c) 122.

Definition upper_char (c : ascii) : ascii :=
  if is_lower c then ascii_of_nat (nat_of_ascii c - 32) else c.

(** [s.toUpperCase()].  The strings it is applied to are HTTP methods,
    which are ASCII tokens: [a]..[z] go to [A]..[Z], every other code
    unit stays. *)
Fixpoint toUpperCase (s : string) : string :=
  match s with
  | EmptyString => EmptyString
  | String c s' => String (upper_char c) (toUpperCase s')
  end.

Definition is_slash (c : ascii) : bool := Ascii.eqb c "/".

(** The longest prefix without a ["/"]: what [[^/]*] consumes. *)
Fixpoint takeSegment (s : string) : string :=
  match s with
  | EmptyString => EmptyString
  | String c s' => if is_slash c then EmptyString else String c (takeSegment s')
  end.

(** [s.match(/^(\/[^/]+)/)], giving capture group 1: a leading ["/"]
    followed by the longest non-empty run of code units other than
    ["/"]; [None] when the regular expression does not match. *)
Definition matchLeadingSegment (s : string) : option string :=
  match s with
  | String c rest =>
      if is_slash c then
        match takeSegment rest with
        | EmptyString => None
        | seg => Some (String c seg)
        end
      else None
  | EmptyString => None
  end.

(** [s.split("/")]: the (possibly empty) pieces between the slashes. *)
Fixpoint split_slash (s : string) : list string :=
  match s with
  | EmptyString => [EmptyString]
  | String c s' =>
      if is_slash c then EmptyString :: split_slash s'
      else match split_slash s' with
           | piece :: pieces => String c piece :: pieces
           | [] => [String c EmptyString]
           end
  end.

(** Truthiness of a string: every string but the empty one. *)
Definition truthy (s : string) : bool :=
  match s with EmptyString => false | String _ _ => true end.

(** [arr.includes(x)] on an array of strings (strict equality). *)
Definition includes (arr : list string) (x : string) : bool :=
  existsb (String.eqb x) arr.

End JSString.

(* ===================================================================== *)
(** ** config.ts: the shape of the configuration *)
(* ===================================================================== *)

Module Config.

Inductive RuleAction : Type := Reject | Silent | Empty.

Record Rule : Type := mkRule {
  resource : string;
  methods : list string;
  action : RuleAction
}.

Record UpstreamConfig : Type := mkUpstream {
  url : string;
  bearer_token : option string
}.

Record ServerConfig : Type := mkServer {
  port : N;
  base_path : option string
}.

Record TransformsConfig : Type := mkTransforms {
  inject_email_type : option string
}.

Record Config : Type := mkConfig {
  upstream : UpstreamConfig;
  server : ServerConfig;
  rules : list Rule;
  transforms : TransformsConfig
}.

End Config.

(* ===================================================================== *)
(** ** JavaScript values as the code sees them *)
(* ===================================================================== *)

Module JS.
Import JSString.

(** The values [JSON.parse] produces.  An object is the list of its own
    properties in enumeration order; [Num] is the runtime's number type. *)
Unset Elimination Schemes.
Inductive JSValue (Num : Type) : Type :=
| JNull : JSValue Num
| JBool (b : bool) : JSValue Num
| JNum (n : Num) : JSValue Num
| JStr (s : string) : JSValue Num
| JArr (items : list (JSValue Num)) : JSValue Num
| JObj (props : list (string * JSValue Num)) : JSValue Num.
Set Elimination Schemes.

Arguments JNull {Num}.
Arguments JBool {Num} b.
Arguments JNum {Num} n.
Arguments JStr {Num} s.
Arguments JArr {Num} items.
Arguments JObj {Num} props.

(** What the code takes from the JavaScript engine: numbers, and the JSON
    codec.  [JSON_parse] gives [None] where [JSON.parse] throws a
    [SyntaxError]. *)
Class Runtime : Type := {
  Num : Type;
  num_zero : Num;
  num_truthy : Num -> bool;
  JSON_parse : string -> option (JSValue Num);
  JSON_stringify : JSValue Num -> string
}.

(** An abrupt completion: the only exception the modelled code can raise
    by itself is a [TypeError]. *)
Inductive JSError : Type := TypeError.

Inductive Completion (A : Type) : Type :=
| Normal (a : A)
| Throw (e : JSError).

Arguments Normal {A} a.
Arguments Throw {A} e.

Definition bindC {A B} (c : Completion A) (k : A -> Completion B)
  : Completion B :=
  match c with
  | Normal a => k a
  | Throw e => Throw e
  end.

(** [String(n)] for a non-negative integer. *)
Definition String_of_N (n : N) : string :=
  NilEmpty.string_of_uint (N.to_uint n).

Section Properties.
Context {A : Type}.

Definition Props : Type := list (string * A).

(** [obj[k]] on own properties. *)
Fixpoint get_prop (k : string) (props : Props) : option A :=
  match props with
  | [] => None
  | (k', v) :: rest => if String.eqb k' k then Some v else get_prop k rest
  end.

Definition has_prop (k : string) (props : Props) : bool :=
  match get_prop k props with Some _ => true | None => false end.

Definition keys (props : Props) : list string := map fst props.

(** An array index: a canonical decimal numeral below [2^32 - 1].  Such
    keys are enumerated first, in ascending order; all other keys follow
    in the order of their creation. *)
Definition array_index (k : string) : option N :=
  match NilEmpty.uint_of_string k with
  | Some d =>
      let n := N.of_uint d in
      if String.eqb (String_of_N n) k && N.ltb n 4294967295
      then Some n else None
  | None => None
  end.

Fixpoint replace_prop (k : string) (v : A) (props : Props) : Props :=
  match props with
  | [] => []
  | (k', v') :: rest =>
      if String.eqb k' k then (k', v) :: rest
      else (k', v') :: replace_prop k v rest
  end.

(** Place a new index key [n] after the index keys below it. *)
Fixpoint insert_index (n : N) (k : string) (v : A) (props : Props) : Props :=
  match props with
  | [] => [(k, v)]
  | (k', v') :: rest =>
      match array_index k' with
      | Some n' =>
          if N.ltb n' n then (k', v') :: insert_index n k v rest
          else (k, v) :: (k', v') :: rest
      | None => (k, v) :: (k', v') :: rest
      end
  end.

(** Defining or assigning the data property [k]: an existing property
    keeps its place, a new one is placed by the enumeration order. *)
Definition set_prop (k : string) (v : A) (props : Props) : Props :=
  if has_prop k props then replace_prop k v props
  else match array_index k with
       | Some n => insert_index n k v props
       | None => (props ++ [(k, v)])%list
       end.

(** [{...target, ...source}]: every property of [source] is defined on
    [target], in the order of [source]. *)
Definition spread_into (target source : Props) : Props :=
  fold_left (fun acc kv => set_prop (fst kv) (snd kv) acc) source target.

End Properties.

(** The values of a runtime. *)
Abbreviation Value := (JSValue Num).

Section Values.
Context {rt : Runtime}.

(** [!!v] *)
Definition truthy_value (v : Value) : bool :=
  match v with
  | JNull => false
  | JBool b => b
  | JNum n => num_truthy n
  | JStr s => truthy s
  | JArr _ => true
  | JObj _ => true
  end.

(** The own enumerable properties of an array: its elements under the
    keys ["0"], ["1"], ... *)
Fixpoint indexed_from (i : N) (items : list Value) : Props :=
  match items with
  | [] => []
  | v :: rest => (String_of_N i, v) :: indexed_from (N.succ i) rest
  end.

(** The properties spread by [...(typeof body === "object" && body !== null
    ? body : {})]. *)
Definition spreadable (body : Value) : Props :=
  match body with
  | JObj props => props
  | JArr items => indexed_from 0 items
  | _ => []
  end.

End Values.

End JS.

(* ===================================================================== *)
(** ** The host: requests, responses, and the impure world *)
(* ===================================================================== *)

Module Host.
Import JSString JS.

Definition lower_char (c : ascii) : ascii :=
  if Nat.leb 65 (nat_of_ascii c) && Nat.leb (nat_of_ascii c) 90
  then ascii_of_nat (nat_of_ascii c + 32) else c.

Fixpoint toLowerCase (s : string) : string :=
  match s with
  | EmptyString => EmptyString
  | String c s' => String (lower_char c) (toLowerCase s')
  end.

(** A [Headers] object: header names compare without regard to case. *)
Definition Headers : Type := list (string * string).

Definition same_name (a b : string) : bool :=
  String.eqb (toLowerCase a) (toLowerCase b).

Fixpoint headers_get (name : string) (h : Headers) : option string :=
  match h with
  | [] => None
  | (n, v) :: rest => if same_name n name then Some v else headers_get name rest
  end.

Definition headers_delete (name : string) (h : Headers) : Headers :=
  filter (fun nv => negb (same_name (fst nv) name)) h.

Definition headers_set (name value : string) (h : Headers) : Headers :=
  (headers_delete name h ++ [(name, value)])%list.

Record Response : Type := mkResponse {
  status : N;
  statusText : string;
  headers : Headers;
  body : option string
}.

(** [new Response(body, { status, headers })] *)
Definition newResponse (body : option string) (status : N) (headers : Headers)
  : Response :=
  mkResponse status "" headers body.

(** An inbound request: [req.method], the [pathname] and [search] of
    [new URL(req.url)], [req.headers], and the text of [req.body] when the
    request has a body. *)
Record Request : Type := mkRequest {
  method : string;
  pathname : string;
  search : string;
  req_headers : Headers;
  req_body : option string
}.

(** The arguments of the outbound [fetch]. *)
Record UpstreamRequest : Type := mkUpstreamRequest {
  up_url : string;
  up_method : string;
  up_headers : Headers;
  up_body : option string
}.

(** What a rejected [fetch] throws: an [Error] with its message, or any
    other value. *)
Inductive Thrown : Type :=
| ErrorObject (message : string)
| OtherValue.

Inductive FetchOutcome : Type :=
| Fulfilled (res : Response)
| Rejected (err : Thrown).

Inductive LogTag : Type := LogRequest | LogReject | LogSilent | LogEmpty | LogProxy.

(** What a handler does that can be seen from outside, and the two calls
    of the handler that the dispatch order is about. *)
Inductive Event : Type :=
| EvLog (tag : LogTag) (method pathname : string)
| EvApplyTransforms (bodyText : string)
| EvForwardRequest (bodyText : option string)
| EvFetch (req : UpstreamRequest).

(** The world around a handler: the identifiers [crypto.randomUUID] will
    return, the readings of the clock, the behaviour of the upstream, and
    the events so far (oldest first). *)
Record World : Type := mkWorld {
  uuids : nat -> string;
  uuids_drawn : nat;
  clock : nat -> string;
  clock_read : nat;
  network : UpstreamRequest -> FetchOutcome;
  trace : list Event
}.

Definition IO (A : Type) : Type := World -> Completion A * World.

Definition ret {A} (a : A) : IO A := fun w => (Normal a, w).

Definition bind {A B} (m : IO A) (k : A -> IO B) : IO B :=
  fun w =>
    match m w with
    | (Normal a, w') => k a w'
    | (Throw e, w') => (Throw e, w')
    end.

Definition lift {A} (c : Completion A) : IO A := fun w => (c, w).

Definition emit (e : Event) : IO unit :=
  fun w => (Normal tt,
            mkWorld (uuids w) (uuids_drawn w) (clock w) (clock_read w)
                    (network w) (trace w ++ [e])%list).

(** [crypto.randomUUID()] *)
Definition randomUUID : IO string :=
  fun w => (Normal (uuids w (uuids_drawn w)),
            mkWorld (uuids w) (S (uuids_drawn w)) (clock w) (clock_read w)
                    (network w) (trace w)).

(** [new Date().toISOString()] *)
Definition nowISOString : IO string :=
  fun w => (Normal (clock w (clock_read w)),
            mkWorld (uuids w) (uuids_drawn w) (clock w) (S (clock_read w))
                    (network w) (trace w)).

(** [await fetch(url, init)], leaving the outcome to the caller's
    [try]/[catch]. *)
Definition upstreamFetch (req : UpstreamRequest) : IO FetchOutcome :=
  fun w => (Normal (network w req),
            mkWorld (uuids w) (uuids_drawn w) (clock w) (clock_read w)
                    (network w) (trace w ++ [EvFetch req])%list).

Definition console_log (tag : LogTag) (method pathname : string) : IO unit :=
  emit (EvLog tag method pathname).

Module IONotations.
Notation "x <- m ;; k" := (bind m (fun x => k))
  (at level 61, m at next level, right associativity).
End IONotations.

End Host.

(* ===================================================================== *)
(** ** proxy.ts *)
(* ===================================================================== *)

Module Proxy.
Import JSString Config JS Host.
Import IONotations.

(** [if (basePath)]: an optional string is truthy when it is present and
    not empty. *)
Definition configured (basePath : option string) : option string :=
  match basePath with
  | Some b => if truthy b then Some b else None
  | None => None
  end.

Definition extractResource (pathname : string) (basePath : option string)
  : option string :=
  match configured basePath with
  | Some b =>
      if negb (startsWith pathname b) then None
      else matchLeadingSegment (slice pathname (String.length b))
  | None => matchLeadingSegment pathname
  end.

Definition isRequestToCollection (pathname : string) (basePath : option string)
  : bool :=
  let path :=
    match configured basePath with
    | Some b => slice pathname (String.length b)
    | None => pathname
    end in
  let segments := filter truthy (split_slash path) in
  Nat.leb (List.length segments) 1.

(** The body of [for (const rule of rules)]. *)
Fixpoint matchRule_scan (resource upperMethod : string) (rules : list Rule)
  : option Rule :=
  match rules with
  | [] => None
  | rule :: rest =>
      if negb (String.eqb rule.(Config.resource) resource)
      then matchRule_scan resource upperMethod rest
      else if includes rule.(methods) "*" || includes rule.(methods) upperMethod
      then Some rule
      else matchRule_scan resource upperMethod rest
  end.

Definition matchRule (pathname method : string) (rules : list Rule)
           (basePath : option string) : option Rule :=
  match extractResource pathname basePath with
  | None => None
  | Some resource =>
      if negb (truthy resource) then None
      else matchRule_scan resource (toUpperCase method) rules
  end.

Section WithRuntime.
Context {rt : Runtime}.

Definition SCIM_JSON : string := "application/scim+json".

Definition scim_headers : Headers := [("Content-Type", SCIM_JSON)].

Definition ERROR_SCHEMA : string := "urn:ietf:params:scim:api:messages:2.0:Error".
Definition LIST_SCHEMA : string := "urn:ietf:params:scim:api:messages:2.0:ListResponse".
Definition USER_SCHEMA : string := "urn:ietf:params:scim:schemas:core:2.0:User".

(** The object literal of [scimError]. *)
Definition errorBody (status : N) (detail : string) : Value :=
  JObj [("schemas", JArr [JStr ERROR_SCHEMA]);
        ("status", JStr (String_of_N status));
        ("detail", JStr detail)].

(** Build an RFC 7644 SCIM error response.  The callers pass the statuses
    403, 404 and 502. *)
Definition scimError (status : N) (detail : string) : Response :=
  newResponse (Some (JSON_stringify (errorBody status detail))) status scim_headers.

(** The zero-result list envelope of the GET-collection branches. *)
Definition emptyList : Value :=
  JObj [("schemas", JArr [JStr LIST_SCHEMA]);
        ("totalResults", JNum num_zero);
        ("Resources", JArr [])].

(** [{ schemas: [...], id: <id>, ...(body is an object ? body : {}),
      meta: <meta> }] *)
Definition stubObject (id : string) (body meta : Value) : Value :=
  JObj (set_prop "meta" meta
          (spread_into [("schemas", JArr [JStr USER_SCHEMA]); ("id", JStr id)]
                       (spreadable body))).

Definition createdMeta (created lastModified : string) : Value :=
  JObj [("resourceType", JStr "User");
        ("created", JStr created);
        ("lastModified", JStr lastModified);
        ("location", JStr "")].

Definition modifiedMeta (lastModified : string) : Value :=
  JObj [("resourceType", JStr "User");
        ("lastModified", JStr lastModified)].

(** Build a plausible success response for a silently voided request. *)
Definition buildSilentResponse (method : string) (body : Value)
           (pathname : string) (basePath : option string) : IO Response :=
  let upper := toUpperCase method in
  let isCollection := isRequestToCollection pathname basePath in
  if String.eqb upper "DELETE" then
    ret (newResponse None 204 [])
  else if String.eqb upper "POST" then
    id <- randomUUID ;;
    created <- nowISOString ;;
    lastModified <- nowISOString ;;
    ret (newResponse
           (Some (JSON_stringify
                    (stubObject id body (createdMeta created lastModified))))
           201 scim_headers)
  else if String.eqb upper "PUT" || String.eqb upper "PATCH" then
    id <- randomUUID ;;
    lastModified <- nowISOString ;;
    ret (newResponse
           (Some (JSON_stringify (stubObject id body (modifiedMeta lastModified))))
           200 scim_headers)
  else if isCollection then
    ret (newResponse (Some (JSON_stringify emptyList)) 200 scim_headers)
  else
    id <- randomUUID ;;
    ret (newResponse
           (Some (JSON_stringify
                    (JObj [("schemas", JArr [JStr USER_SCHEMA]); ("id", JStr id)])))
           200 scim_headers).

(** Build an empty/default SCIM response. *)
Definition buildEmptyResponse (method pathname : string) (body : Value)
           (basePath : option string) : IO Response :=
  let upper := toUpperCase method in
  let isCollection := isRequestToCollection pathname basePath in
  if String.eqb upper "DELETE" then
    ret (newResponse None 204 [])
  else if String.eqb upper "POST" || String.eqb upper "PUT" || String.eqb upper "PATCH" then
    buildSilentResponse method body pathname basePath
  else if isCollection then
    ret (newResponse (Some (JSON_stringify emptyList)) 200 scim_headers)
  else
    ret (scimError 404 "Resource not found").

(** [v[k]] for a key [k] that is neither an array index nor ["length"]
    (the code reads ["emails"] and ["type"]): [null] has no properties, an
    object answers from its own properties, and every other value answers
    [undefined] ([None]). *)
Definition read_member (v : Value) (k : string) : Completion (option Value) :=
  match v with
  | JNull => Throw TypeError
  | JObj props => Normal (get_prop k props)
  | _ => Normal None
  end.

(** [v[k] = x] in a module (strict mode) for such a key [k], giving [v]
    as [JSON.stringify] will see it afterwards: an object gets the
    property; an array gets it too, as a named property that
    [JSON.stringify] leaves out; on a primitive value the assignment
    throws. *)
Definition assign_member (v : Value) (k : string) (x : Value) : Completion Value :=
  match v with
  | JObj props => Normal (JObj (set_prop k x props))
  | JArr items => Normal (JArr items)
  | _ => Throw TypeError
  end.

(** [!!x] for the result of a property read, [undefined] being falsy. *)
Definition truthy_read (x : option Value) : bool :=
  match x with
  | Some v => truthy_value v
  | None => false
  end.

(** [first] is the very object [parsed.emails[0]]: after the assignment to
    [first["type"]], [parsed] is the same tree with that one element
    changed. *)
Definition with_first_email (parsed first' : Value) (others : list Value)
  : Value :=
  match parsed with
  | JObj props => JObj (replace_prop "emails" (JArr (first' :: others)) props)
  | _ => parsed
  end.

(** If configured, inject a ["type"] field into the first email entry that
    lacks one. *)
Definition applyTransforms (bodyText : string) (config : Config)
  : Completion string :=
  match configured config.(transforms).(inject_email_type) with
  | None => Normal bodyText
  | Some emailType =>
      match JSON_parse bodyText with
      | None => Normal bodyText
      | Some parsed =>
          bindC (read_member parsed "emails") (fun emails =>
          match emails with
          | Some (JArr (first :: others)) =>
              if truthy_value first then
                bindC (read_member first "type") (fun type =>
                if negb (truthy_read type) then
                  bindC (assign_member first "type" (JStr emailType))
                        (fun first' =>
                           Normal (JSON_stringify
                                     (with_first_email parsed first' others)))
                else Normal bodyText)
              else Normal bodyText
          | _ => Normal bodyText
          end)
      end
  end.

(** [s.replace(/\/$/, "")]: drop one trailing ["/"]. *)
Fixpoint stripTrailingSlash (s : string) : string :=
  match s with
  | EmptyString => EmptyString
  | String c EmptyString => if is_slash c then EmptyString else s
  | String c s' => String c (stripTrailingSlash s')
  end.

(** [err instanceof Error ? err.message : "upstream unreachable"] *)
Definition failureMessage (err : Thrown) : string :=
  match err with
  | ErrorObject message => message
  | OtherValue => "upstream unreachable"
  end.

(** Forward the request to the upstream SCIM endpoint.  A fulfilled
    [fetch] is relayed as it is (its status is one the [Response]
    constructor takes); a rejected one is caught. *)
Definition forwardRequest (req : Request) (config : Config)
           (bodyText : option string) : IO Response :=
  let path := req.(pathname) in
  let path :=
    match configured config.(server).(base_path) with
    | Some b => if startsWith path b then slice path (String.length b) else path
    | None => path
    end in
  let upstreamUrl :=
    stripTrailingSlash config.(upstream).(url) ++ path ++ req.(search) in
  let headers := headers_delete "connection" (headers_delete "host" req.(req_headers)) in
  let headers :=
    match configured config.(upstream).(bearer_token) with
    | Some token => headers_set "Authorization" ("Bearer " ++ token) headers
    | None => headers
    end in
  outcome <- upstreamFetch
               (mkUpstreamRequest upstreamUrl req.(method) headers
                  (match bodyText with
                   | Some text => Some text
                   | None => req.(req_body)
                   end)) ;;
  match outcome with
  | Fulfilled upstreamRes =>
      ret (mkResponse upstreamRes.(Host.status) upstreamRes.(Host.statusText)
                      upstreamRes.(Host.headers) upstreamRes.(Host.body))
  | Rejected err =>
      ret (scimError 502 ("Upstream error: " ++ failureMessage err))
  end.

End WithRuntime.

End Proxy.

(* ===================================================================== *)
(** ** index.ts: the request handler *)
(* ===================================================================== *)

Module Index.
Import JSString Config JS Host Proxy.
Import IONotations.

Section WithRuntime.
Context {rt : Runtime}.

(** [JSON.parse(bodyText)] under [try], with [null] for no body, an empty
    body, and a body that does not parse. *)
Definition parseBody (bodyText : option string) : Value :=
  match bodyText with
  | Some text =>
      if truthy text then
        match JSON_parse text with
        | Some v => v
        | None => JNull
        end
      else JNull
  | None => JNull
  end.

(** The [fetch] handler given to [Bun.serve], for the loaded [config]. *)
Definition fetch (config : Config) (req : Request) : IO Response :=
  bodyText <- match req.(req_body) with
              | Some text =>
                  _ <- console_log LogRequest req.(method) req.(pathname) ;;
                  ret (Some text)
              | None => ret None
              end ;;
  match matchRule req.(pathname) req.(method) config.(rules)
                  config.(server).(base_path) with
  | Some rule =>
      let body := parseBody bodyText in
      match rule.(action) with
      | Reject =>
          _ <- console_log LogReject req.(method) req.(pathname) ;;
          ret (scimError 403
                 ("Operation " ++ req.(method) ++ " " ++ rule.(Config.resource)
                    ++ " is not permitted"))
      | Silent =>
          _ <- console_log LogSilent req.(method) req.(pathname) ;;
          buildSilentResponse req.(method) body req.(pathname)
                              config.(server).(base_path)
      | Empty =>
          _ <- console_log LogEmpty req.(method) req.(pathname) ;;
          buildEmptyResponse req.(method) req.(pathname) body
                             config.(server).(base_path)
      end
  | None =>
      bodyText <- match bodyText with
                  | Some text =>
                      if truthy text then
                        _ <- emit (EvApplyTransforms text) ;;
                        text' <- lift (applyTransforms text config) ;;
                        ret (Some text')
                      else ret (Some text)
                  | None => ret None
                  end ;;
      _ <- console_log LogProxy req.(method) req.(pathname) ;;
      _ <- emit (EvForwardRequest bodyText) ;;
      forwardRequest req config bodyText
  end.

End WithRuntime.

End Index.

(* ===================================================================== *)
(** ** What the code relies on from [JSON.parse] and [JSON.stringify] *)
(* ===================================================================== *)

Module JSONLaws.
Import JSString JS.

(** The enumeration order of own property keys: no key twice, array
    indices first and ascending, the other keys after them. *)
Fixpoint keys_ordered (ks : list string) : Prop :=
  match ks with
  | [] => True
  | k :: rest =>
      ~ In k rest /\
      match array_index k with
      | Some n =>
          Forall (fun k' => match array_index k' with
                            | Some n' => (n < n')%N
                            | None => True
                            end) rest
      | None => Forall (fun k' => array_index k' = None) rest
      end /\
      keys_ordered rest
  end.

Section WithRuntime.
Context {rt : Runtime}.

(** The trees that stand for JavaScript values: every object lists its
    properties in enumeration order. *)
Unset Elimination Schemes.
Inductive wf : Value -> Prop :=
| wf_null : wf JNull
| wf_bool b : wf (JBool b)
| wf_num n : wf (JNum n)
| wf_str s : wf (JStr s)
| wf_arr items : Forall wf items -> wf (JArr items)
| wf_obj props :
    keys_ordered (keys props) ->
    Forall (fun kv => wf (snd kv)) props ->
    wf (JObj props).
Set Elimination Schemes.

(** What a number reads back as once serialized ([-0] as [0], an infinity
    or [NaN] as [null]). *)
Definition reparse_num (n : Num) : Value :=
  match JSON_parse (JSON_stringify (JNum n)) with
  | Some w => w
  | None => JNull
  end.

(** What a value reads back as once serialized: itself, but for its
    numbers. *)
Fixpoint reparse (v : Value) : Value :=
  match v with
  | JNum n => reparse_num n
  | JArr items => JArr (map reparse items)
  | JObj props => JObj (map (fun kv => (fst kv, reparse (snd kv))) props)
  | other => other
  end.

(** The three facts about the codec that the idempotence of
    [applyTransforms] rests on. *)
Class Lawful : Prop := {
  parse_wf : forall s v, JSON_parse s = Some v -> wf v;
  parse_stringify : forall v, wf v -> JSON_parse (JSON_stringify v) = Some (reparse v);
  stringify_reparse : forall v, wf v -> JSON_stringify (reparse v) = JSON_stringify v
}.

End WithRuntime.

Arguments Lawful rt : clear implicits.

End JSONLaws.

(* ===================================================================== *)
(** ** A runtime to run the code on: JSON with integer numbers *)
(* ===================================================================== *)

Module MiniJSON.
Import JSString JS.
Local Open Scope char_scope.

Definition Text : Type := list ascii.

(** The quotation mark. *)
Definition dquote : ascii := ascii_of_nat 34.

Definition is_ws (c : ascii) : bool :=
  Ascii.eqb c " " || Ascii.eqb c "009" || Ascii.eqb c "010" || Ascii.eqb c "013".

Fixpoint skip_ws (cs : Text) : Text :=
  match cs with
  | c :: rest => if is_ws c then skip_ws rest else cs
  | [] => []
  end.

(** *** Numbers *)

Fixpoint print_uint (d : Decimal.uint) : Text :=
  match d with
  | Decimal.Nil => []
  | Decimal.D0 d => "0" :: print_uint d
  | Decimal.D1 d => "1" :: print_uint d
  | Decimal.D2 d => "2" :: print_uint d
  | Decimal.D3 d => "3" :: print_uint d
  | Decimal.D4 d => "4" :: print_uint d
  | Decimal.D5 d => "5" :: print_uint d
  | Decimal.D6 d => "6" :: print_uint d
  | Decimal.D7 d => "7" :: print_uint d
  | Decimal.D8 d => "8" :: print_uint d
  | Decimal.D9 d => "9" :: print_uint d
  end.

Definition digit_of (c : ascii) : option (Decimal.uint -> Decimal.uint) :=
  if Ascii.eqb c "0" then Some Decimal.D0
  else if Ascii.eqb c "1" then Some Decimal.D1
  else if Ascii.eqb c "2" then Some Decimal.D2
  else if Ascii.eqb c "3" then Some Decimal.D3
  else if Ascii.eqb c "4" then Some Decimal.D4
  else if Ascii.eqb c "5" then Some Decimal.D5
  else if Ascii.eqb c "6" then Some Decimal.D6
  else if Ascii.eqb c "7" then Some Decimal.D7
  else if Ascii.eqb c "8" then Some Decimal.D8
  else if Ascii.eqb c "9" then Some Decimal.D9
  else None.

Definition is_digit (c : ascii) : bool :=
  match digit_of c with Some _ => true | None => false end.

(** The longest run of digits at the head of the text. *)
Fixpoint read_digits (cs : Text) : Decimal.uint * Text :=
  match cs with
  | c :: rest =>
      match digit_of c with
      | Some D => let (d, r) := read_digits rest in (D d, r)
      | None => (Decimal.Nil, cs)
      end
  | [] => (Decimal.Nil, [])
  end.

(** A JSON integer without sign: ["0"], or digits that do not start with
    ["0"]. *)
Definition read_N (cs : Text) : option (N * Text) :=
  let (d, rest) := read_digits cs in
  match d with
  | Decimal.Nil => None
  | Decimal.D0 Decimal.Nil => Some (0%N, rest)
  | Decimal.D0 _ => None
  | _ => Some (N.of_uint d, rest)
  end.

Definition print_Z (z : Z) : Text :=
  if (z <? 0)%Z then "-" :: print_uint (N.to_uint (Z.abs_N z))
  else print_uint (N.to_uint (Z.abs_N z)).

Definition read_Z (cs : Text) : option (Z * Text) :=
  match cs with
  | c :: rest =>
      if Ascii.eqb c "-" then
        match read_N rest with
        | Some (n, rest') => Some (Z.opp (Z.of_N n), rest')
        | None => None
        end
      else
        match read_N cs with
        | Some (n, rest') => Some (Z.of_N n, rest')
        | None => None
        end
  | [] => None
  end.

Definition is_num_start (c : ascii) : bool := Ascii.eqb c "-" || is_digit c.

(** *** Strings *)

Definition hex_char (n : nat) : ascii :=
  if Nat.ltb n 10 then ascii_of_nat (48 + n) else ascii_of_nat (87 + n).

Definition hex_val (c : ascii) : option nat :=
  let n := nat_of_ascii c in
  if Nat.leb 48 n && Nat.leb n 57 then Some (n - 48)
  else if Nat.leb 97 n && Nat.leb n 102 then Some (n - 87)
  else if Nat.leb 65 n && Nat.leb n 70 then Some (n - 55)
  else None.

Definition escape_char (c : ascii) : Text :=
  if Ascii.eqb c dquote then ["\"; dquote]
  else if Ascii.eqb c "\" then ["\"; "\"]
  else if Ascii.eqb c "008" then ["\"; "b"]
  else if Ascii.eqb c "009" then ["\"; "t"]
  else if Ascii.eqb c "010" then ["\"; "n"]
  else if Ascii.eqb c "012" then ["\"; "f"]
  else if Ascii.eqb c "013" then ["\"; "r"]
  else if Nat.ltb (nat_of_ascii c) 32 then
    ["\"; "u"; "0"; "0"; hex_char (nat_of_ascii c / 16); hex_char (nat_of_ascii c mod 16)]
  else [c].

Fixpoint escape (s : string) : Text :=
  match s with
  | EmptyString => []
  | String c s' => (escape_char c ++ escape s')%list
  end.

Definition quote (s : string) : Text := ((dquote :: escape s) ++ [dquote])%list.

Definition consS (c : ascii) (r : option (string * Text)) : option (string * Text) :=
  match r with
  | Some (s, rest) => Some (String c s, rest)
  | None => None
  end.

(** A [\uXXXX] escape, for the code units this model of strings holds. *)
Definition read_hex4 (h1 h2 h3 h4 : ascii) : option ascii :=
  match hex_val h1, hex_val h2, hex_val h3, hex_val h4 with
  | Some 0, Some 0, Some a, Some b => Some (ascii_of_nat (16 * a + b))
  | _, _, _, _ => None
  end.

(** The rest of a string literal after its opening quote. *)
Fixpoint read_string (cs : Text) : option (string * Text) :=
  match cs with
  | [] => None
  | c :: rest =>
      if Ascii.eqb c dquote then Some (EmptyString, rest)
      else if Ascii.eqb c "\" then
        match rest with
        | e :: rest1 =>
            if Ascii.eqb e dquote then consS dquote (read_string rest1)
            else if Ascii.eqb e "\" then consS "\" (read_string rest1)
            else if Ascii.eqb e "/" then consS "/" (read_string rest1)
            else if Ascii.eqb e "b" then consS "008" (read_string rest1)
            else if Ascii.eqb e "t" then consS "009" (read_string rest1)
            else if Ascii.eqb e "n" then consS "010" (read_string rest1)
            else if Ascii.eqb e "f" then consS "012" (read_string rest1)
            else if Ascii.eqb e "r" then consS "013" (read_string rest1)
            else if Ascii.eqb e "u" then
              match rest1 with
              | h1 :: h2 :: h3 :: h4 :: rest2 =>
                  match read_hex4 h1 h2 h3 h4 with
                  | Some c' => consS c' (read_string rest2)
                  | None => None
                  end
              | _ => None
              end
            else None
        | [] => None
        end
      else if Nat.ltb (nat_of_ascii c) 32 then None
      else consS c (read_string rest)
  end.

(** *** Values *)

(** The text after the literal [lit], when the text starts with it. *)
Fixpoint strip_prefix (lit : string) (cs : Text) : option Text :=
  match lit with
  | EmptyString => Some cs
  | String c lit' =>
      match cs with
      | c' :: cs' => if Ascii.eqb c' c then strip_prefix lit' cs' else None
      | [] => None
      end
  end.

Fixpoint print (v : JSValue Z) : Text :=
  match v with
  | JNull => list_ascii_of_string "null"
  | JBool true => list_ascii_of_string "true"
  | JBool false => list_ascii_of_string "false"
  | JNum z => print_Z z
  | JStr s => quote s
  | JArr items =>
      "[" :: (fix print_items (items : list (JSValue Z)) : Text :=
                match items with
                | [] => ["]"]
                | x :: rest =>
                    (print x ++ match rest with
                                | [] => ["]"]
                                | _ => "," :: print_items rest
                                end)%list
                end) items
  | JObj props =>
      "{" :: (fix print_members (props : list (string * JSValue Z)) : Text :=
                match props with
                | [] => ["}"]
                | kv :: rest =>
                    (quote (fst kv) ++ ":" :: print (snd kv) ++
                       match rest with
                       | [] => ["}"]
                       | _ => "," :: print_members rest
                       end)%list
                end) props
  end.

(** The elements of an array after its opening bracket, and the members
    of an object after its opening brace, as [print] writes them. *)
Fixpoint print_items (items : list (JSValue Z)) : Text :=
  match items with
  | [] => ["]"]
  | x :: rest =>
      (print x ++ match rest with
                  | [] => ["]"]
                  | _ => "," :: print_items rest
                  end)%list
  end.

Fixpoint print_members (props : list (string * JSValue Z)) : Text :=
  match props with
  | [] => ["}"]
  | kv :: rest =>
      (quote (fst kv) ++ ":" :: print (snd kv) ++
         match rest with
         | [] => ["}"]
         | _ => "," :: print_members rest
         end)%list
  end.

(** The recursion depth [parse_value] needs to read a value back. *)
Fixpoint weight (v : JSValue Z) : nat :=
  match v with
  | JArr items => S (list_sum (map (fun x => S (weight x)) items))
  | JObj props => S (list_sum (map (fun kv => S (weight (snd kv))) props))
  | _ => 1
  end.

(** An object is built by defining its members one after the other. *)
Definition build_object (members : list (string * JSValue Z))
  : list (string * JSValue Z) :=
  spread_into [] members.

Fixpoint parse_value (fuel : nat) (cs : Text) {struct fuel}
  : option (JSValue Z * Text) :=
  match fuel with
  | O => None
  | S fuel' =>
      match skip_ws cs with
      | [] => None
      | c :: rest =>
          if is_num_start c then
            match read_Z (c :: rest) with
            | Some (z, rest') => Some (JNum z, rest')
            | None => None
            end
          else if Ascii.eqb c dquote then
            match read_string rest with
            | Some (s, rest') => Some (JStr s, rest')
            | None => None
            end
          else if Ascii.eqb c "[" then
            match skip_ws rest with
            | c' :: rest' =>
                if Ascii.eqb c' "]" then Some (JArr [], rest')
                else match parse_items fuel' rest with
                     | Some (items, rest'') => Some (JArr items, rest'')
                     | None => None
                     end
            | [] => None
            end
          else if Ascii.eqb c "{" then
            match skip_ws rest with
            | c' :: rest' =>
                if Ascii.eqb c' "}" then Some (JObj [], rest')
                else match parse_members fuel' rest with
                     | Some (members, rest'') =>
                         Some (JObj (build_object members), rest'')
                     | None => None
                     end
            | [] => None
            end
          else if Ascii.eqb c "n" then
            match strip_prefix "ull" rest with
            | Some rest' => Some (JNull, rest')
            | None => None
            end
          else if Ascii.eqb c "t" then
            match strip_prefix "rue" rest with
            | Some rest' => Some (JBool true, rest')
            | None => None
            end
          else if Ascii.eqb c "f" then
            match strip_prefix "alse" rest with
            | Some rest' => Some (JBool false, rest')
            | None => None
            end
          else None
      end
  end
with parse_items (fuel : nat) (cs : Text) {struct fuel}
  : option (list (JSValue Z) * Text) :=
  match fuel with
  | O => None
  | S fuel' =>
      match parse_value fuel' cs with
      | Some (v, rest) =>
          match skip_ws rest with
          | c :: rest' =>
              if Ascii.eqb c "," then
                match parse_items fuel' rest' with
                | Some (vs, rest'') => Some (v :: vs, rest'')
                | None => None
                end
              else if Ascii.eqb c "]" then Some ([v], rest')
              else None
          | [] => None
          end
      | None => None
      end
  end
with parse_members (fuel : nat) (cs : Text) {struct fuel}
  : option (list (string * JSValue Z) * Text) :=
  match fuel with
  | O => None
  | S fuel' =>
      match skip_ws cs with
      | q :: rest =>
          if Ascii.eqb q dquote then
            match read_string rest with
            | Some (k, rest1) =>
                match skip_ws rest1 with
                | colon :: rest2 =>
                    if Ascii.eqb colon ":" then
                      match parse_value fuel' rest2 with
                      | Some (v, rest3) =>
                          match skip_ws rest3 with
                          | c :: rest4 =>
                              if Ascii.eqb c "," then
                                match parse_members fuel' rest4 with
                                | Some (ms, rest5) => Some ((k, v) :: ms, rest5)
                                | None => None
                                end
                              else if Ascii.eqb c "}" then Some ([(k, v)], rest4)
                              else None
                          | [] => None
                          end
                      | None => None
                      end
                    else None
                | [] => None
                end
            | None => None
            end
          else None
      | [] => None
      end
  end.

Definition parse (s : string) : option (JSValue Z) :=
  let cs := list_ascii_of_string s in
  match parse_value (S (List.length cs)) cs with
  | Some (v, rest) =>
      match skip_ws rest with
      | [] => Some v
      | _ :: _ => None
      end
  | None => None
  end.

Definition stringify (v : JSValue Z) : string :=
  string_of_list_ascii (print v).

(** A text that does not go on with a digit. *)
Definition stops (rest : Text) : Prop :=
  match rest with
  | [] => True
  | c :: _ => is_digit c = false
  end.

(** The characters a printed value can start with. *)
Definition value_start (c : ascii) : bool :=
  is_num_start c || Ascii.eqb c dquote || Ascii.eqb c "[" || Ascii.eqb c "{"
  || Ascii.eqb c "n" || Ascii.eqb c "t" || Ascii.eqb c "f".

Definition reads_back (v : JSValue Z) : Prop :=
  forall fuel rest,
    weight v <= fuel -> stops rest ->
    parse_value fuel (print v ++ rest)%list = Some (v, rest).

(** Integers for numbers, with the codec above. *)
Definition runtime : Runtime := {|
  Num := Z;
  num_zero := 0%Z;
  num_truthy := fun z => negb (Z.eqb z 0);
  JSON_parse := parse;
  JSON_stringify := stringify
|}.

End MiniJSON.

(* ===================================================================== *)
(** ** Sample configurations, requests and worlds *)
(* ===================================================================== *)

Module Samples.
Import JSString Config JS Host Proxy Index.

(** JSON texts are written with ['] where the text has a quotation mark. *)
Fixpoint json (s : string) : string :=
  match s with
  | EmptyString => EmptyString
  | String c s' =>
      String (if Ascii.eqb c "'" then ascii_of_nat 34 else c) (json s')
  end.

(** The rules of the test suite. *)
Definition rules : list Rule :=
  [ mkRule "/Groups" ["*"] Empty;
    mkRule "/Users" ["DELETE"] Reject;
    mkRule "/Bulk" ["POST"] Silent ].

Definition config (basePath inject : option string) : Config :=
  mkConfig (mkUpstream "https://example.com/" None)
           (mkServer 8080 basePath) rules (mkTransforms inject).

Definition request (method pathname : string) (body : option string) : Request :=
  mkRequest method pathname "" [("Host", "proxy.local")] body.

(** A world whose upstream is unreachable. *)
Definition world : World :=
  mkWorld (fun n => "id-" ++ String_of_N (N.of_nat n)) 0
          (fun n => "2024-01-01T00:00:0" ++ String_of_N (N.of_nat n) ++ ".000Z") 0
          (fun _ => Rejected (ErrorObject "connect ECONNREFUSED"))
          [].

End Samples.

Module SampleBodies.
Import JS.

(** The scenario of the specification: the first email has no type. *)
Definition untypedEmail : string :=
  Samples.json "{'userName':'test','emails':[{'value':'a@b.com','primary':true}]}".


(** A request body that brings its own [id] and [meta]. *)
Definition ownIdBody : JSValue Z :=
  JObj [("id", JStr "caller-id");
        ("meta", JStr "mine");
        ("displayName", JStr "Test")].

End SampleBodies.

(* ===================================================================== *)
(** ** The vocabulary of the statements *)
(* ===================================================================== *)

Module Notions.
Import JSString Config JS Host Proxy Index.
Local Open Scope list_scope.

(** A rule applies to a resource and an upper-cased method. *)
Definition rule_applies (res upperMethod : string) (rule : Rule) : Prop :=
  rule.(Config.resource) = res /\
  (In "*" rule.(methods) \/ In upperMethod rule.(methods)).

Definition rule_appliesb (res upperMethod : string) (rule : Rule) : bool :=
  String.eqb rule.(Config.resource) res &&
  (includes rule.(methods) "*" || includes rule.(methods) upperMethod).

(** The test the keys after an index key [n] pass. *)
Definition above (n : N) (k : string) : Prop :=
  match array_index k with
  | Some n' => (n < n')%N
  | None => True
  end.

(** The value of the [Content-Type] header of a response. *)
Definition contentType (res : Response) : option string :=
  headers_get "Content-Type" res.(headers).

(** The GET branches are reached by every method that is none of DELETE,
    POST, PUT, PATCH once upper-cased; GET is one of them. *)
Definition reads (method : string) : Prop :=
  toUpperCase method = "GET".

(** The events that are console output. *)
Definition is_log (e : Event) : Prop :=
  match e with
  | EvLog _ _ _ => True
  | _ => False
  end.

Definition matched (config : Config) (req : Request) : option Rule :=
  matchRule req.(pathname) req.(method) config.(rules)
            config.(server).(base_path).

(** The world after the handler has logged [logs]. *)
Definition logged (w : World) (logs : list Event) : World :=
  mkWorld w.(uuids) w.(uuids_drawn) w.(clock) w.(clock_read) w.(network)
          (w.(trace) ++ logs).

(** What the handler prints for a matched request. *)
Definition matched_logs (req : Request) (rule : Rule) : list Event :=
  match req.(req_body) with
  | Some _ => [EvLog LogRequest req.(method) req.(pathname)]
  | None => []
  end ++
  [EvLog match rule.(action) with
         | Reject => LogReject
         | Silent => LogSilent
         | Empty => LogEmpty
         end req.(method) req.(pathname)].

Section WithRuntime.
Context {rt : Runtime}.

(** The transformer with the configured type and the parsed body at hand:
    what [applyTransforms] does after [JSON.parse] has succeeded. *)
Definition inject (emailType bodyText : string) (parsed : Value)
  : Completion string :=
  bindC (read_member parsed "emails") (fun emails =>
  match emails with
  | Some (JArr (first :: others)) =>
      if truthy_value first then
        bindC (read_member first "type") (fun type =>
        if negb (truthy_read type) then
          bindC (assign_member first "type" (JStr emailType))
                (fun first' =>
                   Normal (JSON_stringify (with_first_email parsed first' others)))
        else Normal bodyText)
      else Normal bodyText
  | _ => Normal bodyText
  end).

End WithRuntime.

End Notions.

Module StubNotions.
Import JSString JS.

(** The key is an array index. *)
Definition is_index (k : string) : bool :=
  match array_index k with
  | Some _ => true
  | None => false
  end.

(** The keys of [{ schemas, id, ...body, meta }] in enumeration order,
    from the keys of [body] in theirs: the array indices of the body;
    then [schemas] and [id], which are created first; then the other keys
    of the body as they come; then [meta], unless the body has created
    it already. *)
Definition stub_keys (body_keys : list string) : list string :=
  (filter is_index body_keys ++
   "schemas" :: "id" ::
   filter (fun k => negb (is_index k) && negb (String.eqb k "schemas")
                    && negb (String.eqb k "id")) body_keys ++
   (if includes body_keys "meta" then [] else ["meta"]))%list.

End StubNotions.

(* ===================================================================== *)
(** ** More vocabulary: paths, methods, events *)
(* ===================================================================== *)

Module PathNotions.
Import JSString.

(** No code unit of the string is ["/"]. *)
Fixpoint slash_free (s : string) : bool :=
  match s with
  | EmptyString => true
  | String c s' => negb (is_slash c) && slash_free s'
  end.

(** Every code unit of the string is ["/"]. *)
Fixpoint all_slashes (s : string) : bool :=
  match s with
  | EmptyString => true
  | String c s' => is_slash c && all_slashes s'
  end.

(** The string is empty or begins with ["/"]: what may follow a path
    segment. *)
Definition segment_end (tail : string) : bool :=
  match tail with
  | EmptyString => true
  | String c _ => is_slash c
  end.

(** The last code unit of the string is ["/"]. *)
Fixpoint ends_with_slash (s : string) : bool :=
  match s with
  | EmptyString => false
  | String c EmptyString => is_slash c
  | String _ s' => ends_with_slash s'
  end.

End PathNotions.

Module MethodNotions.
Import JSString.

(** The methods the synthesizers have no branch for: once upper-cased,
    none of DELETE, POST, PUT, PATCH.  They take the GET branches. *)
Definition falls_through (method : string) : bool :=
  negb (String.eqb (toUpperCase method) "DELETE") &&
  negb (String.eqb (toUpperCase method) "POST") &&
  negb (String.eqb (toUpperCase method) "PUT") &&
  negb (String.eqb (toUpperCase method) "PATCH").

End MethodNotions.

Module ValueNotions.
Import JS.

(** A boolean, a number or a string: a value that is no object and not
    [null]. *)
Definition is_primitive {Num : Type} (v : JSValue Num) : bool :=
  match v with
  | JBool _ | JNum _ | JStr _ => true
  | _ => false
  end.

End ValueNotions.

Module HeaderNotions.
Import Host.

(** The entries of a [Headers] object under a name, in their order. *)
Definition named (name : string) (h : Headers) : Headers :=
  filter (fun nv => same_name (fst nv) name) h.

End HeaderNotions.

Module HandlerNotions.
Import JSString Config JS Host Proxy Index.

(** The events that are a call of the upstream. *)
Definition is_fetch (e : Event) : bool :=
  match e with
  | EvFetch _ => true
  | _ => false
  end.

Definition fetch_count (es : list Event) : nat :=
  List.length (filter is_fetch es).

(** What the handler prints first: a line for a request with a body. *)
Definition request_log (req : Request) : list Event :=
  match req.(req_body) with
  | Some _ => [EvLog LogRequest req.(method) req.(pathname)]
  | None => []
  end.

Section WithRuntime.
Context {rt : Runtime}.

(** The body an unmatched request is forwarded with: the inbound text
    through [applyTransforms] when it is not empty, the inbound body
    otherwise. *)
Definition transformed (config : Config) (req : Request)
  : Completion (option string) :=
  match req.(req_body) with
  | Some text =>
      if truthy text
      then bindC (applyTransforms text config) (fun text' => Normal (Some text'))
      else Normal (Some text)
  | None => Normal None
  end.

(** The events of the transformation step. *)
Definition transform_log (req : Request) : list Event :=
  match req.(req_body) with
  | Some text => if truthy text then [EvApplyTransforms text] else []
  | None => []
  end.

End WithRuntime.

End HandlerNotions.

(* ===================================================================== *)
(** ** config.ts: loading the configuration *)
(* ===================================================================== *)

Module ConfigLoader.
Import JSString Config JS.

(** The document [Bun.TOML.parse] hands over: strings, integers, booleans,
    arrays and tables (floats and date-times are left out).  A table lists
    its keys once each.  Method names are ASCII, as [toUpperCase] has
    it. *)
Unset Elimination Schemes.
Inductive Toml : Type :=
| TString (s : string)
| TInteger (z : Z)
| TBoolean (b : bool)
| TArray (items : list Toml)
| TTable (entries : list (string * Toml)).
Set Elimination Schemes.

(** [v[k]] for the keys the loader reads: a table answers from its
    entries, every other value answers [undefined]. *)
Definition toml_get (v : Toml) (k : string) : option Toml :=
  match v with
  | TTable entries => get_prop k entries
  | _ => None
  end.

(** How [loadConfig] ends: with a configuration; with the [Error] it
    throws itself; with a [TypeError] of the engine (a value cast to an
    array or a string without a check turned out to be something else);
    or with an object the record [Config] does not hold: a cast let a
    value of another type into a string field, or the port is no natural
    number that a JavaScript number holds exactly. *)
Inductive Load (A : Type) : Type :=
| Loaded (a : A)
| ConfigError (message : string)
| LoadTypeError
| NotAConfig.

Arguments Loaded {A} a.
Arguments ConfigError {A} message.
Arguments LoadTypeError {A}.
Arguments NotAConfig {A}.

Definition bindL {A B} (m : Load A) (k : A -> Load B) : Load B :=
  match m with
  | Loaded a => k a
  | ConfigError message => ConfigError message
  | LoadTypeError => LoadTypeError
  | NotAConfig => NotAConfig
  end.

(** A text between quotation marks. *)
Definition quoted (s : string) : string :=
  String (ascii_of_nat 34) (s ++ String (ascii_of_nat 34) "").

Definition upstreamRequired : string := "Config: [upstream] url is required".

Definition resourceRequired (i : N) : string :=
  "Config: rules[" ++ String_of_N i ++ "] resource is required".

Definition actionInvalid (i : N) : string :=
  "Config: rules[" ++ String_of_N i ++ "] action must be "
    ++ quoted "reject" ++ ", " ++ quoted "silent" ++ ", or " ++ quoted "empty".

(** [methods.map((m) => m.toUpperCase())] on the elements of an array. *)
Fixpoint upperMethods (ms : list Toml) : Load (list string) :=
  match ms with
  | [] => Loaded []
  | TString m :: rest =>
      bindL (upperMethods rest) (fun ms' => Loaded (toUpperCase m :: ms'))
  | _ :: _ => LoadTypeError
  end.

(** The callback of [rawRules.map((r, i) => ...)]. *)
Definition loadRule (i : N) (r : Toml) : Load Rule :=
  match toml_get r "resource" with
  | Some (TString resource) =>
      let methods :=
        match toml_get r "methods" with
        | Some ms => ms
        | None => TArray [TString "*"]
        end in
      let action :=
        match toml_get r "action" with
        | Some a => a
        | None => TString "reject"
        end in
      bindL (match action with
             | TString a =>
                 if String.eqb a "reject" then Loaded Reject
                 else if String.eqb a "silent" then Loaded Silent
                 else if String.eqb a "empty" then Loaded Empty
                 else ConfigError (actionInvalid i)
             | _ => ConfigError (actionInvalid i)
             end)
            (fun action =>
               bindL (match methods with
                      | TArray ms => upperMethods ms
                      | _ => LoadTypeError
                      end)
                     (fun methods => Loaded (mkRule resource methods action)))
  | _ => ConfigError (resourceRequired i)
  end.

(** [rawRules.map] from index [i] on: the first rule that fails ends the
    loading. *)
Fixpoint loadRules (i : N) (rs : list Toml) : Load (list Rule) :=
  match rs with
  | [] => Loaded []
  | r :: rest =>
      bindL (loadRule i r) (fun rule =>
      bindL (loadRules (N.succ i) rest) (fun rules => Loaded (rule :: rules)))
  end.

(** [v as string | undefined], for a field the model holds as an
    optional string. *)
Definition asOptionalString (v : option Toml) : Load (option string) :=
  match v with
  | None => Loaded None
  | Some (TString s) => Loaded (Some s)
  | Some _ => NotAConfig
  end.

(** The integers a JavaScript number holds exactly. *)
Definition MAX_SAFE_INTEGER : Z := 9007199254740991.

(** [typeof server["port"] === "number" ? server["port"] : 8080] *)
Definition portOf (v : option Toml) : Load N :=
  match v with
  | Some (TInteger z) =>
      if ((0 <=? z) && (z <=? MAX_SAFE_INTEGER))%Z
      then Loaded (Z.to_N z)
      else NotAConfig
  | _ => Loaded 8080%N
  end.

(** [loadConfig] from the parsed document on: what follows
    [Bun.TOML.parse(text)]. *)
Definition loadConfig (raw : Toml) : Load Config :=
  match toml_get raw "upstream" with
  | Some upstream =>
      match toml_get upstream "url" with
      | Some (TString url) =>
          let server :=
            match toml_get raw "server" with
            | Some s => s
            | None => TTable []
            end in
          bindL (match toml_get raw "rules" with
                 | None => Loaded []
                 | Some (TArray rawRules) => loadRules 0 rawRules
                 | Some _ => LoadTypeError
                 end)
                (fun rules =>
                   let transforms :=
                     match toml_get raw "transforms" with
                     | Some t => t
                     | None => TTable []
                     end in
                   bindL (asOptionalString (toml_get upstream "bearer_token"))
                         (fun bearer_token =>
                   bindL (portOf (toml_get server "port")) (fun port =>
                   bindL (asOptionalString (toml_get server "base_path"))
                         (fun base_path =>
                   bindL (asOptionalString
                            (toml_get transforms "inject_email_type"))
                         (fun inject_email_type =>
                   Loaded (mkConfig (mkUpstream url bearer_token)
                                    (mkServer port base_path)
                                    rules
                                    (mkTransforms inject_email_type)))))))
      | _ => ConfigError upstreamRequired
      end
  | None => ConfigError upstreamRequired
  end.

End ConfigLoader.

Module LoaderNotions.
Import JSString Config JS ConfigLoader.

(** The word a rule's action is written with. *)
Definition action_name (a : RuleAction) : string :=
  match a with
  | Reject => "reject"
  | Silent => "silent"
  | Empty => "empty"
  end.

(** The entries of [rules] in the file; none when there is no such
    array. *)
Definition file_rules (raw : Toml) : list Toml :=
  match toml_get raw "rules" with
  | Some (TArray rs) => rs
  | _ => []
  end.

(** The file has an [upstream] table whose [url] is a string. *)
Definition upstream_url (raw : Toml) : option string :=
  match toml_get raw "upstream" with
  | Some upstream =>
      match toml_get upstream "url" with
      | Some (TString url) => Some url
      | _ => None
      end
  | None => None
  end.

(** The rule is what the entry [r] of the file says: its resource, its
    methods in upper case (["*"] when it names none), its action
    (reject when it names none). *)
Definition rule_of_file (r : Toml) (rule : Rule) : Prop :=
  toml_get r "resource" = Some (TString (resource rule)) /\
  match toml_get r "methods" with
  | None => methods rule = ["*"]
  | Some m =>
      exists ms, m = TArray (map TString ms) /\
                 methods rule = map toUpperCase ms
  end /\
  match toml_get r "action" with
  | None => action rule = Reject
  | Some a => a = TString (action_name (action rule))
  end.

(** The value is an array of strings. *)
Fixpoint all_strings (ms : list Toml) : bool :=
  match ms with
  | [] => true
  | TString _ :: rest => all_strings rest
  | _ :: _ => false
  end.

Definition is_string_array (v : Toml) : bool :=
  match v with
  | TArray ms => all_strings ms
  | _ => false
  end.

(** The value is one of the three action words. *)
Definition is_action (v : Toml) : bool :=
  match v with
  | TString a =>
      String.eqb a "reject" || String.eqb a "silent" || String.eqb a "empty"
  | _ => false
  end.

(** An entry of [rules] the loader accepts: a string for a resource,
    an array of strings for its methods if it names any, one of the
    three words for its action if it names one. *)
Definition well_formed_rule (r : Toml) : bool :=
  match toml_get r "resource" with
  | Some (TString _) =>
      match toml_get r "methods" with
      | Some m => is_string_array m
      | None => true
      end &&
      match toml_get r "action" with
      | Some a => is_action a
      | None => true
      end
  | _ => false
  end.

End LoaderNotions.

Module LoaderSamples.
Import Config ConfigLoader.

(** A configuration file with every section, the second rule with a
    method in lower case. *)
Definition document : Toml :=
  TTable
    [("upstream", TTable [("url", TString "https://idp.example/scim/");
                          ("bearer_token", TString "secret")]);
     ("server", TTable [("port", TInteger 9090);
                        ("base_path", TString "/scim/v2")]);
     ("rules", TArray
        [TTable [("resource", TString "/Groups")];
         TTable [("resource", TString "/Users");
                 ("methods", TArray [TString "delete"; TString "Patch"]);
                 ("action", TString "silent")]]);
     ("transforms", TTable [("inject_email_type", TString "work")])].

(** What the loader makes of it. *)
Definition documentConfig : Config :=
  mkConfig (mkUpstream "https://idp.example/scim/" (Some "secret"))
           (mkServer 9090 (Some "/scim/v2"))
           [mkRule "/Groups" ["*"] Reject;
            mkRule "/Users" ["DELETE"; "PATCH"] Silent]
           (mkTransforms (Some "work")).

(** A file with nothing but the upstream. *)
Definition minimal : Toml :=
  TTable [("upstream", TTable [("url", TString "https://idp.example")])].

(** A file without an upstream url, and with a rule that is wrong too. *)
Definition noUpstream : Toml :=
  TTable [("upstream", TTable [("bearer_token", TString "secret")]);
          ("rules", TArray [TTable [("action", TString "drop")]])].

(** Two rules the loader accepts. *)
Definition goodRules : list Toml :=
  [TTable [("resource", TString "/Groups")];
   TTable [("resource", TString "/Users"); ("action", TString "empty")]].

(** A file with an upstream and the given rules. *)
Definition withRules (rs : list Toml) : Toml :=
  TTable [("upstream", TTable [("url", TString "https://idp.example")]);
          ("rules", TArray rs)].

(** A rule without a resource. *)
Definition unnamedRule : Toml := TTable [("methods", TArray [TString "GET"])].

(** A rule with an unknown action, and a string where the array of
    methods belongs. *)
Definition dropRule : Toml :=
  TTable [("resource", TString "/Bulk"); ("methods", TString "POST");
          ("action", TString "drop")].

(** A rule with a string where the array of methods belongs. *)
Definition bareMethodRule : Toml :=
  TTable [("resource", TString "/Bulk"); ("methods", TString "POST")].

End LoaderSamples.

(* ===================================================================== *)
(** ** Facts about the matcher *)
(* ===================================================================== *)

Module MatcherFacts.
Import JSString Config Proxy Notions.
Local Open Scope list_scope.

Lemma includes_In (arr : list string) (x : string) :
  includes arr x = true <-> In x arr.
Proof.
  unfold includes. rewrite existsb_exists. split.
  - intros [y [Hin Heq]]. apply String.eqb_eq in Heq. now subst.
  - intros Hin. exists x. split; [assumption | apply String.eqb_refl].
Qed.

Lemma rule_appliesb_spec (res up : string) (rule : Rule) :
  rule_appliesb res up rule = true <-> rule_applies res up rule.
Proof.
  unfold rule_appliesb, rule_applies.
  rewrite andb_true_iff, orb_true_iff, String.eqb_eq, !includes_In.
  tauto.
Qed.

(** The loop is [List.find] with the matching test. *)
Lemma matchRule_scan_find (res up : string) (rules : list Rule) :
  matchRule_scan res up rules = find (rule_appliesb res up) rules.
Proof.
  induction rules as [|rule rest IH]; simpl; [reflexivity|].
  unfold rule_appliesb at 1.
  destruct (String.eqb (Config.resource rule) res); simpl; [|exact IH].
  destruct (includes (methods rule) "*" || includes (methods rule) up);
    [reflexivity | exact IH].
Qed.

Lemma find_first {A} (p : A -> bool) (l : list A) (x : A) :
  find p l = Some x <->
  exists before after,
    l = before ++ x :: after /\ p x = true /\
    Forall (fun y => p y = false) before.
Proof.
  induction l as [|a l IH]; simpl.
  - split; [discriminate|].
    intros (before & after & Heq & _). destruct before; discriminate.
  - destruct (p a) eqn:Hpa.
    + split.
      * intros [= <-]. exists [], l. repeat split; auto.
      * intros (before & after & Heq & Hpx & Hall).
        destruct before as [|b before]; simpl in Heq.
        -- now injection Heq as ->.
        -- injection Heq as -> ->. inversion Hall; congruence.
    + rewrite IH. split.
      * intros (before & after & -> & Hpx & Hall).
        exists (a :: before), after. repeat split; auto.
      * intros (before & after & Heq & Hpx & Hall).
        destruct before as [|b before]; simpl in Heq.
        -- injection Heq as -> ->. congruence.
        -- injection Heq as -> ->. inversion Hall; subst.
           exists before, after. repeat split; auto.
Qed.

Lemma find_none_all {A} (p : A -> bool) (l : list A) :
  find p l = None <-> Forall (fun y => p y = false) l.
Proof.
  induction l as [|a l IH]; simpl.
  - split; auto.
  - destruct (p a) eqn:Hpa.
    + split; [discriminate|]. inversion 1; congruence.
    + rewrite IH. split; [auto | now inversion 1].
Qed.

Lemma startsWith_empty (s : string) : startsWith s "" = true.
Proof. destruct s; reflexivity. Qed.

Lemma extractResource_truthy (p : string) (b : option string) (res : string) :
  extractResource p b = Some res -> truthy res = true.
Proof.
  unfold extractResource, matchLeadingSegment.
  destruct (configured b) as [b'|].
  - destruct (negb (startsWith p b')); [discriminate|].
    destruct (slice p (String.length b')) as [|c rest]; [discriminate|].
    destruct (is_slash c); [|discriminate].
    destruct (takeSegment rest); [discriminate|]. now intros [= <-].
  - destruct p as [|c rest]; [discriminate|].
    destruct (is_slash c); [|discriminate].
    destruct (takeSegment rest); [discriminate|]. now intros [= <-].
Qed.

Lemma extractResource_prefix_mismatch (p b : string) :
  startsWith p b = false -> extractResource p (Some b) = None.
Proof.
  intros H. unfold extractResource, configured.
  destruct b as [|c b']; [now rewrite startsWith_empty in H|].
  simpl truthy. cbv iota. now rewrite H.
Qed.

(** C1.  [matchRule] returns the first rule, in configuration order, whose
    resource is exactly the extracted one and whose methods hold ["*"] or
    the upper-cased request method; it returns nothing when no resource is
    extracted, which is the case whenever the request path does not start
    with the configured base path. *)
Theorem matchRule_first_applicable_rule :
  forall (pathname method : string) (rules : list Rule)
         (basePath : option string),
    (forall res,
        extractResource pathname basePath = Some res ->
        (forall rule,
            matchRule pathname method rules basePath = Some rule <->
            exists before after,
              rules = before ++ rule :: after /\
              rule_applies res (toUpperCase method) rule /\
              Forall (fun r => ~ rule_applies res (toUpperCase method) r)
                     before) /\
        (matchRule pathname method rules basePath = None <->
         Forall (fun r => ~ rule_applies res (toUpperCase method) r) rules))
    /\ (extractResource pathname basePath = None ->
        matchRule pathname method rules basePath = None)
    /\ (forall b,
           basePath = Some b -> startsWith pathname b = false ->
           extractResource pathname basePath = None /\
           matchRule pathname method rules basePath = None).
Proof.
  intros pathname method rules basePath.
  assert (Hneg : forall res l,
             Forall (fun y => rule_appliesb res (toUpperCase method) y = false) l <->
             Forall (fun r => ~ rule_applies res (toUpperCase method) r) l).
  { intros res l. rewrite !Forall_forall. split; intros H r Hr.
    - rewrite <- rule_appliesb_spec. rewrite (H r Hr). discriminate.
    - specialize (H r Hr). rewrite <- rule_appliesb_spec in H.
      now destruct (rule_appliesb res (toUpperCase method) r). }
  split; [|split].
  - intros res Hres. unfold matchRule. rewrite Hres.
    rewrite (extractResource_truthy _ _ _ Hres). simpl negb. cbv iota.
    rewrite matchRule_scan_find. split.
    + intros rule. rewrite find_first. split.
      * intros (before & after & Heq & Hp & Hall).
        exists before, after. rewrite <- Hneg, <- rule_appliesb_spec. auto.
      * intros (before & after & Heq & Hp & Hall).
        exists before, after. rewrite Hneg, rule_appliesb_spec. auto.
    + rewrite find_none_all. apply Hneg.
  - intros Hnone. unfold matchRule. now rewrite Hnone.
  - intros b -> Hpre.
    pose proof (extractResource_prefix_mismatch _ _ Hpre) as Hnone.
    split; [exact Hnone|]. unfold matchRule. now rewrite Hnone.
Qed.

End MatcherFacts.

Module MatcherExamples.
Import JSString Config Proxy MatcherFacts Notions.
Local Open Scope list_scope.

(** The test-suite cases "case-insensitive method matching" and "returns
    null for non-matching path with base path", obtained from the
    theorem. *)
Lemma matchRule_first_applicable_rule_witness :
  matchRule "/Users/abc" "delete" Samples.rules None
    = Some (mkRule "/Users" ["DELETE"] Reject) /\
  matchRule "/other/Groups" "GET" Samples.rules (Some "/scim/v2") = None.
Proof.
  split.
  - destruct (matchRule_first_applicable_rule
                "/Users/abc" "delete" Samples.rules None) as [Hfirst _].
    destruct (Hfirst "/Users" eq_refl) as [Hsome _].
    apply Hsome.
    exists [mkRule "/Groups" ["*"] Empty], [mkRule "/Bulk" ["POST"] Silent].
    split; [reflexivity|]. split.
    + split; [reflexivity | right; left; reflexivity].
    + constructor; [|constructor]. intros [Hres _]. discriminate Hres.
  - destruct (matchRule_first_applicable_rule
                "/other/Groups" "GET" Samples.rules (Some "/scim/v2"))
      as [_ [_ Hbase]].
    exact (proj2 (Hbase "/scim/v2" eq_refl eq_refl)).
Defined.

End MatcherExamples.

(* ===================================================================== *)
(** ** Reading and defining properties *)
(* ===================================================================== *)

Module PropsFacts.
Import JSString JS.
Local Open Scope list_scope.

Section Generic.
Context {A : Type}.
Implicit Types (k : string) (v : A) (ps : @Props A).

Lemma get_prop_None k ps : ~ In k (keys ps) -> get_prop k ps = None.
Proof.
  induction ps as [|[k' v'] ps IH]; simpl; [reflexivity|].
  intros Hnot. destruct (String.eqb_spec k' k) as [->|Hne].
  - exfalso. apply Hnot. now left.
  - apply IH. intros Hin. apply Hnot. now right.
Qed.

Lemma get_prop_In k ps : get_prop k ps <> None <-> In k (keys ps).
Proof.
  induction ps as [|[k' v'] ps IH]; simpl; [tauto|].
  destruct (String.eqb_spec k' k) as [->|Hne].
  - split; [now left | discriminate].
  - rewrite IH. split; [now right | intros [H|H]; [contradiction | exact H]].
Qed.

Lemma has_prop_In k ps : has_prop k ps = true <-> In k (keys ps).
Proof.
  unfold has_prop. rewrite <- get_prop_In.
  destruct (get_prop k ps); split; congruence.
Qed.

Lemma keys_replace k v ps : keys (replace_prop k v ps) = keys ps.
Proof.
  induction ps as [|[k' v'] ps IH]; simpl; [reflexivity|].
  destruct (String.eqb k' k); simpl; [reflexivity | now rewrite IH].
Qed.

Lemma get_replace_same k v ps :
  has_prop k ps = true -> get_prop k (replace_prop k v ps) = Some v.
Proof.
  unfold has_prop. induction ps as [|[k' v'] ps IH]; simpl; [discriminate|].
  destruct (String.eqb k' k) eqn:E; simpl; rewrite E; [reflexivity | exact IH].
Qed.

Lemma get_replace_other k k' v ps :
  k <> k' -> get_prop k' (replace_prop k v ps) = get_prop k' ps.
Proof.
  intros Hne. induction ps as [|[k1 v1] ps IH]; simpl; [reflexivity|].
  destruct (String.eqb_spec k1 k) as [->|Hk]; simpl.
  - apply String.eqb_neq in Hne. now rewrite Hne.
  - now rewrite IH.
Qed.

Lemma get_insert_same n k v ps :
  has_prop k ps = false -> get_prop k (insert_index n k v ps) = Some v.
Proof.
  unfold has_prop. induction ps as [|[k' v'] ps IH]; simpl.
  - now rewrite String.eqb_refl.
  - destruct (String.eqb k' k) eqn:E; [discriminate|]. intros Hno.
    destruct (array_index k') as [n'|]; [destruct (N.ltb n' n)|];
      simpl; rewrite ?E, ?String.eqb_refl; auto.
Qed.

Lemma get_insert_other n k k' v ps :
  k <> k' -> get_prop k' (insert_index n k v ps) = get_prop k' ps.
Proof.
  intros Hne. apply String.eqb_neq in Hne.
  induction ps as [|[k1 v1] ps IH]; simpl.
  - now rewrite Hne.
  - destruct (array_index k1) as [n1|]; [destruct (N.ltb n1 n)|];
      simpl; rewrite ?Hne, ?IH; reflexivity.
Qed.

Lemma get_app k ps ps' :
  get_prop k (ps ++ ps') =
  match get_prop k ps with Some v => Some v | None => get_prop k ps' end.
Proof.
  induction ps as [|[k' v'] ps IH]; simpl; [reflexivity|].
  destruct (String.eqb k' k); [reflexivity | exact IH].
Qed.

Lemma get_set_same k v ps : get_prop k (set_prop k v ps) = Some v.
Proof.
  unfold set_prop. destruct (has_prop k ps) eqn:Hhas.
  - now apply get_replace_same.
  - destruct (array_index k) as [n|].
    + now apply get_insert_same.
    + rewrite get_app. unfold has_prop in Hhas.
      destruct (get_prop k ps); [discriminate|]. simpl.
      now rewrite String.eqb_refl.
Qed.

Lemma get_set_other k k' v ps :
  k <> k' -> get_prop k' (set_prop k v ps) = get_prop k' ps.
Proof.
  intros Hne. unfold set_prop. destruct (has_prop k ps).
  - now apply get_replace_other.
  - destruct (array_index k) as [n|].
    + now apply get_insert_other.
    + rewrite get_app. simpl. apply String.eqb_neq in Hne. rewrite Hne.
      now destruct (get_prop k' ps).
Qed.

(** Spreading [source] over [target]: the properties of [source] win. *)
Lemma get_spread k (target source : @Props A) :
  NoDup (keys source) ->
  get_prop k (spread_into target source) =
  match get_prop k source with
  | Some v => Some v
  | None => get_prop k target
  end.
Proof.
  unfold spread_into. revert target.
  induction source as [|[k1 v1] source IH]; intros target Hnd; simpl;
    [reflexivity|].
  inversion Hnd as [|? ? Hnotin Hnd']; subst.
  rewrite (IH _ Hnd'). simpl.
  destruct (String.eqb_spec k1 k) as [->|Hne].
  - rewrite (get_prop_None _ _ Hnotin). apply get_set_same.
  - now rewrite (get_set_other _ _ _ _ Hne).
Qed.

End Generic.

End PropsFacts.

(* ===================================================================== *)
(** ** Defining a property keeps the enumeration order *)
(* ===================================================================== *)

Module OrderFacts.
Import JSString JS JSONLaws PropsFacts Notions.
Local Open Scope list_scope.

Lemma keys_ordered_cons (k : string) (rest : list string) :
  keys_ordered (k :: rest) <->
  ~ In k rest /\
  match array_index k with
  | Some n => Forall (above n) rest
  | None => Forall (fun k' => array_index k' = None) rest
  end /\
  keys_ordered rest.
Proof. reflexivity. Qed.

Lemma array_index_canonical (k : string) (n : N) :
  array_index k = Some n -> k = String_of_N n.
Proof.
  unfold array_index.
  destruct (NilEmpty.uint_of_string k) as [d|]; [|discriminate].
  destruct (String.eqb_spec (String_of_N (N.of_uint d)) k) as [Heq|Hne];
    simpl; [|discriminate].
  destruct (N.ltb (N.of_uint d) 4294967295); [|discriminate].
  now intros [= <-].
Qed.

Lemma array_index_inj (k k' : string) (n : N) :
  array_index k = Some n -> array_index k' = Some n -> k = k'.
Proof.
  intros H H'. apply array_index_canonical in H, H'. congruence.
Qed.

Section Generic.
Context {A : Type}.
Implicit Types (k : string) (v : A) (ps : @Props A).

Lemma keys_app ps ps' : keys (ps ++ ps') = keys ps ++ keys ps'.
Proof. apply map_app. Qed.

Lemma In_keys_insert n k v ps x :
  In x (keys (insert_index n k v ps)) <-> x = k \/ In x (keys ps).
Proof.
  induction ps as [|[k' v'] ps IH]; simpl.
  - intuition congruence.
  - destruct (array_index k') as [n'|]; [destruct (N.ltb n' n)|]; simpl;
      rewrite ?IH; intuition congruence.
Qed.

Lemma Forall_keys_insert (P : string -> Prop) n k v ps :
  P k -> Forall P (keys ps) -> Forall P (keys (insert_index n k v ps)).
Proof.
  intros Hk Hall. rewrite Forall_forall in *. intros x Hx.
  apply In_keys_insert in Hx. destruct Hx as [-> | Hx]; auto.
Qed.

Lemma insert_index_ordered n k v ps :
  array_index k = Some n ->
  ~ In k (keys ps) ->
  keys_ordered (keys ps) ->
  keys_ordered (keys (insert_index n k v ps)).
Proof.
  intros Hk. induction ps as [|[k' v'] ps IH]; intros Hnotin Hord.
  - simpl. rewrite Hk. auto.
  - change (keys ((k', v') :: ps)) with (k' :: keys ps) in Hord, Hnotin.
    apply keys_ordered_cons in Hord. destruct Hord as [Hk' [Hafter Hrest]].
    assert (Hne : k' <> k) by (intros ->; apply Hnotin; now left).
    assert (Hnotin' : ~ In k (keys ps)) by (intros H; apply Hnotin; now right).
    simpl. destruct (array_index k') as [n'|] eqn:Hidx.
    + destruct (N.ltb_spec n' n) as [Hlt|Hge].
      * change (keys_ordered (k' :: keys (insert_index n k v ps))).
        apply keys_ordered_cons. rewrite Hidx. split; [|split].
        -- rewrite In_keys_insert. intros [-> | Hin]; auto.
        -- apply Forall_keys_insert; [|exact Hafter].
           unfold above. now rewrite Hk.
        -- now apply IH.
      * change (keys_ordered (k :: k' :: keys ps)).
        assert (Hlt : (n < n')%N).
        { destruct (N.eq_dec n n') as [->|Hnn]; [|lia].
          exfalso. apply Hne. eapply array_index_inj; eassumption. }
        apply keys_ordered_cons. rewrite Hk. split; [|split].
        -- exact Hnotin.
        -- constructor; [unfold above; now rewrite Hidx|].
           eapply Forall_impl; [|exact Hafter].
           intros x. unfold above. destruct (array_index x); [lia|trivial].
        -- apply keys_ordered_cons. rewrite Hidx. auto.
    + change (keys_ordered (k :: k' :: keys ps)).
      apply keys_ordered_cons. rewrite Hk. split; [|split].
      * exact Hnotin.
      * constructor; [unfold above; now rewrite Hidx|].
        eapply Forall_impl; [|exact Hafter].
        intros x Hx. unfold above. now rewrite Hx.
      * apply keys_ordered_cons. rewrite Hidx. auto.
Qed.

Lemma keys_ordered_snoc (ks : list string) k :
  array_index k = None ->
  ~ In k ks ->
  keys_ordered ks ->
  keys_ordered (ks ++ [k]).
Proof.
  intros Hk. induction ks as [|k' ks IH]; intros Hnotin Hord.
  - simpl. rewrite Hk. auto.
  - apply keys_ordered_cons in Hord. destruct Hord as [Hk' [Hafter Hrest]].
    change ((k' :: ks) ++ [k]) with (k' :: (ks ++ [k])).
    apply keys_ordered_cons. split; [|split].
    + rewrite in_app_iff. simpl. intros [Hin | [-> | []]]; [auto|].
      apply Hnotin. now left.
    + destruct (array_index k').
      * apply Forall_app. split; [exact Hafter|].
        constructor; [|constructor]. unfold above. now rewrite Hk.
      * apply Forall_app. split; [exact Hafter|]. now repeat constructor.
    + apply IH; [|exact Hrest]. intros Hin. apply Hnotin. now right.
Qed.

(** Defining a property leaves the keys in enumeration order. *)
Lemma set_prop_ordered k v ps :
  keys_ordered (keys ps) -> keys_ordered (keys (set_prop k v ps)).
Proof.
  intros Hord. unfold set_prop. destruct (has_prop k ps) eqn:Hhas.
  - now rewrite keys_replace.
  - assert (Hnotin : ~ In k (keys ps)).
    { rewrite <- has_prop_In. now rewrite Hhas. }
    destruct (array_index k) as [n|] eqn:Hk.
    + now apply insert_index_ordered.
    + rewrite keys_app. now apply keys_ordered_snoc.
Qed.

Lemma Forall_replace (P : string * A -> Prop) k v ps :
  P (k, v) -> Forall P ps -> Forall P (replace_prop k v ps).
Proof.
  intros Hkv. induction 1 as [|[k' v'] ps Hp Hall IH]; simpl; [constructor|].
  destruct (String.eqb_spec k' k) as [->|Hne]; constructor; auto.
Qed.

Lemma Forall_insert (P : string * A -> Prop) n k v ps :
  P (k, v) -> Forall P ps -> Forall P (insert_index n k v ps).
Proof.
  intros Hkv. induction 1 as [|[k' v'] ps Hp Hall IH]; simpl;
    [repeat constructor; assumption|].
  destruct (array_index k') as [n'|]; [destruct (N.ltb n' n)|];
    repeat constructor; auto.
Qed.

Lemma Forall_set (P : string * A -> Prop) k v ps :
  P (k, v) -> Forall P ps -> Forall P (set_prop k v ps).
Proof.
  intros Hkv Hall. unfold set_prop. destruct (has_prop k ps).
  - now apply Forall_replace.
  - destruct (array_index k).
    + now apply Forall_insert.
    + apply Forall_app. split; [assumption | now repeat constructor].
Qed.

Lemma get_prop_Forall (P : string * A -> Prop) k v ps :
  Forall P ps -> get_prop k ps = Some v -> P (k, v).
Proof.
  induction 1 as [|[k' v'] ps Hp Hall IH]; simpl; [discriminate|].
  destruct (String.eqb_spec k' k) as [->|Hne]; [now intros [= <-] | exact IH].
Qed.

End Generic.

End OrderFacts.

(* ===================================================================== *)
(** ** The sample runtime obeys the laws of the codec *)
(* ===================================================================== *)

Module MiniJSONFacts.
Import JSString JS JSONLaws MiniJSON PropsFacts OrderFacts.
Local Open Scope list_scope.
Local Open Scope char_scope.

(** *** Numbers *)

Lemma read_digits_print (d : Decimal.uint) (rest : Text) :
  stops rest -> read_digits (print_uint d ++ rest) = (d, rest).
Proof.
  intros Hstop. induction d; simpl; try (rewrite IHd; reflexivity).
  destruct rest as [|c rest]; [reflexivity|]. simpl in *.
  unfold is_digit in Hstop. now destruct (digit_of c).
Qed.

Lemma nzhead_not_D0 (d d' : Decimal.uint) : Decimal.nzhead d <> Decimal.D0 d'.
Proof. induction d; simpl; try discriminate. exact IHd. Qed.

Lemma unorm_fixed (d : Decimal.uint) :
  Decimal.unorm d = d ->
  match d with
  | Decimal.Nil => False
  | Decimal.D0 d' => d' = Decimal.Nil
  | _ => True
  end.
Proof.
  destruct d; simpl; trivial; try discriminate.
  unfold Decimal.unorm. simpl.
  destruct (Decimal.nzhead d) eqn:Hnz; intros H; inversion H; subst; trivial;
    exfalso; eapply nzhead_not_D0; eassumption.
Qed.

Lemma to_uint_fixed (n : N) : Decimal.unorm (N.to_uint n) = N.to_uint n.
Proof.
  rewrite <- (DecimalN.Unsigned.to_of (N.to_uint n)).
  now rewrite DecimalN.Unsigned.of_to.
Qed.

Lemma read_N_print (n : N) (rest : Text) :
  stops rest -> read_N (print_uint (N.to_uint n) ++ rest) = Some (n, rest).
Proof.
  intros Hstop. unfold read_N. rewrite (read_digits_print _ _ Hstop).
  pose proof (unorm_fixed _ (to_uint_fixed n)) as Hfix.
  pose proof (DecimalN.Unsigned.of_to n) as Hof.
  destruct (N.to_uint n) as [|d|d|d|d|d|d|d|d|d|d]; try contradiction;
    try (now rewrite Hof).
  subst d. simpl in Hof. now rewrite <- Hof.
Qed.

Lemma print_uint_head (n : N) :
  exists c tl, print_uint (N.to_uint n) = c :: tl /\ is_digit c = true.
Proof.
  pose proof (unorm_fixed _ (to_uint_fixed n)) as Hfix.
  destruct (N.to_uint n); try contradiction; simpl; eauto.
Qed.

Lemma read_Z_print (z : Z) (rest : Text) :
  stops rest -> read_Z (print_Z z ++ rest) = Some (z, rest).
Proof.
  intros Hstop. unfold print_Z. destruct (Z.ltb_spec z 0) as [Hneg|Hpos].
  - simpl. rewrite (read_N_print _ _ Hstop). f_equal. f_equal. lia.
  - destruct (print_uint_head (Z.abs_N z)) as [c [tl [Hhead Hdigit]]].
    pose proof (read_N_print (Z.abs_N z) rest Hstop) as Hread.
    rewrite Hhead in *. simpl.
    destruct (Ascii.eqb_spec c "-") as [->|_]; [discriminate Hdigit|].
    simpl in Hread. rewrite Hread. f_equal. f_equal. lia.
Qed.

Lemma print_Z_head (z : Z) :
  exists c tl, print_Z z = c :: tl /\ is_num_start c = true.
Proof.
  unfold print_Z. destruct (z <? 0)%Z.
  - eexists _, _. split; reflexivity.
  - destruct (print_uint_head (Z.abs_N z)) as [c [tl [Hhead Hdigit]]].
    exists c, tl. split; [exact Hhead|]. unfold is_num_start.
    now rewrite Hdigit, orb_true_r.
Qed.

(** *** Strings *)

Lemma read_escape_char (c : ascii) (tail : Text) :
  read_string (escape_char c ++ tail) = consS c (read_string tail).
Proof.
  destruct c as [[] [] [] [] [] [] [] []]; reflexivity.
Qed.

Lemma read_string_escape (s : string) (rest : Text) :
  read_string (escape s ++ dquote :: rest) = Some (s, rest).
Proof.
  induction s as [|c s IH]; [reflexivity|].
  simpl escape. rewrite <- List.app_assoc, read_escape_char, IH. reflexivity.
Qed.

Lemma read_string_quote (s : string) (rest : Text) :
  exists tl, quote s ++ rest = dquote :: tl /\ read_string tl = Some (s, rest).
Proof.
  exists (escape s ++ dquote :: rest). split.
  - unfold quote. simpl. now rewrite <- List.app_assoc.
  - apply read_string_escape.
Qed.

(** *** Values *)

(** Induction on a value through its elements and members. *)
Lemma value_ind (P : JSValue Z -> Prop) :
  P JNull -> (forall b, P (JBool b)) ->
  (forall z, P (JNum z)) -> (forall s, P (JStr s)) ->
  (forall items, Forall P items -> P (JArr items)) ->
  (forall props, Forall (fun kv => P (snd kv)) props -> P (JObj props)) ->
  forall v, P v.
Proof.
  intros Hnull Hbool Hnum Hstr Harr Hobj.
  fix go 1. intros [| b | z | s | items | props].
  - exact Hnull.
  - apply Hbool.
  - apply Hnum.
  - apply Hstr.
  - apply Harr. induction items as [|x xs IH]; constructor.
    + apply go.
    + exact IH.
  - apply Hobj. induction props as [|kv ps IH]; constructor.
    + apply go.
    + exact IH.
Qed.

Lemma print_arr (items : list (JSValue Z)) :
  print (JArr items) = "[" :: print_items items.
Proof. reflexivity. Qed.

Lemma print_obj (props : list (string * JSValue Z)) :
  print (JObj props) = "{" :: print_members props.
Proof. reflexivity. Qed.

Lemma print_head (v : JSValue Z) :
  exists c tl, print v = c :: tl /\ value_start c = true.
Proof.
  destruct v as [| [] | z | s | items | props];
    try (eexists _, _; split; reflexivity).
  destruct (print_Z_head z) as [c [tl [Hhead Hstart]]].
    exists c, tl. split; [exact Hhead|]. unfold value_start. now rewrite Hstart.
Qed.

Lemma value_start_facts (c : ascii) :
  value_start c = true ->
  is_ws c = false /\ Ascii.eqb c "]" = false /\ Ascii.eqb c "}" = false.
Proof.
  destruct c as [[] [] [] [] [] [] [] []]; intros H; try discriminate H;
    repeat split.
Qed.

Lemma skip_ws_value (v : JSValue Z) (rest : Text) :
  skip_ws (print v ++ rest) = print v ++ rest.
Proof.
  destruct (print_head v) as [c [tl [-> Hstart]]].
  apply value_start_facts in Hstart. destruct Hstart as [Hws _].
  simpl. now rewrite Hws.
Qed.

Lemma parse_value_S (fuel : nat) (cs : Text) :
  parse_value (S fuel) cs =
  match skip_ws cs with
  | [] => None
  | c :: rest =>
      if is_num_start c then
        match read_Z (c :: rest) with
        | Some (z, rest') => Some (JNum z, rest')
        | None => None
        end
      else if Ascii.eqb c dquote then
        match read_string rest with
        | Some (s, rest') => Some (JStr s, rest')
        | None => None
        end
      else if Ascii.eqb c "[" then
        match skip_ws rest with
        | c' :: rest' =>
            if Ascii.eqb c' "]" then Some (JArr [], rest')
            else match parse_items fuel rest with
                 | Some (items, rest'') => Some (JArr items, rest'')
                 | None => None
                 end
        | [] => None
        end
      else if Ascii.eqb c "{" then
        match skip_ws rest with
        | c' :: rest' =>
            if Ascii.eqb c' "}" then Some (JObj [], rest')
            else match parse_members fuel rest with
                 | Some (members, rest'') =>
                     Some (JObj (build_object members), rest'')
                 | None => None
                 end
        | [] => None
        end
      else if Ascii.eqb c "n" then
        match strip_prefix "ull" rest with
        | Some rest' => Some (JNull, rest')
        | None => None
        end
      else if Ascii.eqb c "t" then
        match strip_prefix "rue" rest with
        | Some rest' => Some (JBool true, rest')
        | None => None
        end
      else if Ascii.eqb c "f" then
        match strip_prefix "alse" rest with
        | Some rest' => Some (JBool false, rest')
        | None => None
        end
      else None
  end.
Proof. reflexivity. Qed.

Lemma parse_items_S (fuel : nat) (cs : Text) :
  parse_items (S fuel) cs =
  match parse_value fuel cs with
  | Some (v, rest) =>
      match skip_ws rest with
      | c :: rest' =>
          if Ascii.eqb c "," then
            match parse_items fuel rest' with
            | Some (vs, rest'') => Some (v :: vs, rest'')
            | None => None
            end
          else if Ascii.eqb c "]" then Some ([v], rest')
          else None
      | [] => None
      end
  | None => None
  end.
Proof. reflexivity. Qed.

Lemma parse_members_S (fuel : nat) (cs : Text) :
  parse_members (S fuel) cs =
  match skip_ws cs with
  | q :: rest =>
      if Ascii.eqb q dquote then
        match read_string rest with
        | Some (k, rest1) =>
            match skip_ws rest1 with
            | colon :: rest2 =>
                if Ascii.eqb colon ":" then
                  match parse_value fuel rest2 with
                  | Some (v, rest3) =>
                      match skip_ws rest3 with
                      | c :: rest4 =>
                          if Ascii.eqb c "," then
                            match parse_members fuel rest4 with
                            | Some (ms, rest5) => Some ((k, v) :: ms, rest5)
                            | None => None
                            end
                          else if Ascii.eqb c "}" then Some ([(k, v)], rest4)
                          else None
                      | [] => None
                      end
                  | None => None
                  end
                else None
            | [] => None
            end
        | None => None
        end
      else None
  | [] => None
  end.
Proof. reflexivity. Qed.

(** *** Objects are rebuilt as they were *)

Lemma ordered_prefix_notin (ks : list string) (k : string) (rest : list string) :
  keys_ordered (ks ++ k :: rest) -> ~ In k ks.
Proof.
  induction ks as [|a ks IH]; simpl; [tauto|].
  intros [Hnotin [_ Hord]] [-> | Hin].
  - apply Hnotin. apply in_or_app. right. now left.
  - now apply IH.
Qed.

Lemma ordered_prefix_below (ks : list string) (k : string) (rest : list string)
      (n : N) :
  keys_ordered (ks ++ k :: rest) ->
  array_index k = Some n ->
  Forall (fun a => exists m, array_index a = Some m /\ (m < n)%N) ks.
Proof.
  intros Hord Hk. induction ks as [|a ks IH]; [constructor|].
  simpl in Hord. destruct Hord as [_ [Hafter Hord]].
  constructor; [|now apply IH].
  destruct (array_index a) as [m|].
  - rewrite Forall_app in Hafter. destruct Hafter as [_ Hafter].
    inversion Hafter as [|? ? Hk' _]; subst. rewrite Hk in Hk'. eauto.
  - rewrite Forall_app in Hafter. destruct Hafter as [_ Hafter].
    inversion Hafter as [|? ? Hk' _]; subst. congruence.
Qed.

Lemma insert_index_last {A} (n : N) (k : string) (v : A) (ps : @Props A) :
  Forall (fun a => exists m, array_index a = Some m /\ (m < n)%N) (keys ps) ->
  insert_index n k v ps = ps ++ [(k, v)].
Proof.
  induction ps as [|[k' v'] ps IH]; simpl; [reflexivity|].
  intros Hall. inversion Hall as [|? ? [m [Hm Hlt]] Hrest]; subst.
  rewrite Hm. apply N.ltb_lt in Hlt. rewrite Hlt. now rewrite IH.
Qed.

Lemma set_prop_next {A} (k : string) (v : A) (acc : @Props A)
      (rest : list string) :
  keys_ordered (keys acc ++ k :: rest) ->
  set_prop k v acc = acc ++ [(k, v)].
Proof.
  intros Hord. unfold set_prop.
  pose proof (ordered_prefix_notin _ _ _ Hord) as Hnotin.
  rewrite <- has_prop_In in Hnotin.
  destruct (has_prop k acc); [now contradiction Hnotin|].
  destruct (array_index k) as [n|] eqn:Hk; [|reflexivity].
  apply insert_index_last. eapply ordered_prefix_below; eassumption.
Qed.

Lemma spread_ordered_app {A} (acc ps : @Props A) :
  keys_ordered (keys (acc ++ ps)) -> spread_into acc ps = acc ++ ps.
Proof.
  revert acc. induction ps as [|[k v] ps IH]; intros acc Hord.
  - now rewrite List.app_nil_r.
  - unfold spread_into in *. simpl.
    rewrite keys_app in Hord. simpl in Hord.
    rewrite (set_prop_next k v acc (keys ps) Hord).
    rewrite IH; rewrite <- List.app_assoc; [reflexivity|].
    now rewrite keys_app.
Qed.

Lemma build_object_ordered (props : list (string * JSValue Z)) :
  keys_ordered (keys props) -> build_object props = props.
Proof. intros Hord. exact (spread_ordered_app [] props Hord). Qed.

(** *** Printed values read back *)

Lemma skip_ws_keep (c : ascii) (tl : Text) :
  is_ws c = false -> skip_ws (c :: tl) = c :: tl.
Proof. intros H. simpl. now rewrite H. Qed.

Lemma items_read_back (items : list (JSValue Z)) :
  Forall reads_back items -> items <> [] ->
  forall fuel rest,
    list_sum (map (fun x => S (weight x)) items) <= fuel ->
    parse_items fuel (print_items items ++ rest) = Some (items, rest).
Proof.
  induction 1 as [|x xs Hx Hxs IH]; [congruence|].
  intros _ fuel rest Hfuel. simpl in Hfuel.
  destruct fuel as [|f]; [lia|].
  rewrite parse_items_S.
  destruct xs as [|y ys].
  - simpl print_items. rewrite <- List.app_assoc.
    rewrite (Hx f) by (simpl; auto; lia). reflexivity.
  - pose proof (IH ltac:(discriminate) f rest ltac:(simpl in *; lia)) as Hrec.
    change (print_items (x :: y :: ys))
      with (print x ++ "," :: print_items (y :: ys)).
    remember (print_items (y :: ys)) as tail eqn:Htail. clear Htail.
    rewrite <- List.app_assoc. simpl app.
    rewrite (Hx f) by (simpl; auto; lia).
    rewrite skip_ws_keep by reflexivity.
    change (Ascii.eqb "," ",") with true. cbv iota. now rewrite Hrec.
Qed.

Lemma members_read_back (props : list (string * JSValue Z)) :
  Forall (fun kv => reads_back (snd kv)) props -> props <> [] ->
  forall fuel rest,
    list_sum (map (fun kv => S (weight (snd kv))) props) <= fuel ->
    parse_members fuel (print_members props ++ rest) = Some (props, rest).
Proof.
  induction 1 as [|[k v] ps Hv Hps IH]; [congruence|].
  intros _ fuel rest Hfuel. simpl in Hfuel, Hv.
  destruct fuel as [|f]; [lia|].
  rewrite parse_members_S.
  destruct ps as [|q qs].
  - change (print_members [(k, v)]) with (quote k ++ ":" :: print v ++ ["}"]).
    rewrite <- List.app_assoc.
    destruct (read_string_quote k ((":" :: print v ++ ["}"]) ++ rest))
      as [tl [-> Hread]].
    rewrite skip_ws_keep by reflexivity.
    change (Ascii.eqb dquote dquote) with true. cbv iota. rewrite Hread.
    simpl app. rewrite skip_ws_keep by reflexivity.
    change (Ascii.eqb ":" ":") with true. cbv iota.
    rewrite <- List.app_assoc.
    rewrite (Hv f) by (simpl; auto; lia). reflexivity.
  - pose proof (IH ltac:(discriminate) f rest ltac:(simpl in *; lia)) as Hrec.
    change (print_members ((k, v) :: q :: qs))
      with (quote k ++ ":" :: print v ++ "," :: print_members (q :: qs)).
    remember (print_members (q :: qs)) as tail eqn:Htail. clear Htail.
    rewrite <- List.app_assoc.
    destruct (read_string_quote k ((":" :: print v ++ "," :: tail) ++ rest))
      as [tl [-> Hread]].
    rewrite skip_ws_keep by reflexivity.
    change (Ascii.eqb dquote dquote) with true. cbv iota. rewrite Hread.
    simpl app. rewrite skip_ws_keep by reflexivity.
    change (Ascii.eqb ":" ":") with true. cbv iota.
    rewrite <- List.app_assoc. simpl app.
    rewrite (Hv f) by (simpl; auto; lia).
    rewrite skip_ws_keep by reflexivity.
    change (Ascii.eqb "," ",") with true. cbv iota. now rewrite Hrec.
Qed.

Lemma value_reads_back (v : JSValue Z) :
  wf (rt := runtime) v -> reads_back v.
Proof.
  induction v as [| b | z | s | items IH | props IH] using value_ind;
    intros Hwf fuel rest Hfuel Hstop;
    (destruct fuel as [|f]; [simpl in Hfuel; lia|]).
  - reflexivity.
  - destruct b; reflexivity.
  - rewrite parse_value_S.
    change (print (JNum z)) with (print_Z z).
    pose proof (read_Z_print z rest Hstop) as Hread.
    destruct (print_Z_head z) as [c [tl [Hhead Hstart]]].
    rewrite Hhead in *. simpl app in *.
    assert (Hws : is_ws c = false).
    { apply value_start_facts. unfold value_start. now rewrite Hstart. }
    rewrite (skip_ws_keep _ _ Hws), Hstart, Hread. reflexivity.
  - rewrite parse_value_S.
    destruct (read_string_quote s rest) as [tl [Heq Hread]].
    change (print (JStr s)) with (quote s). rewrite Heq.
    rewrite skip_ws_keep by reflexivity.
    change (is_num_start dquote) with false.
    change (Ascii.eqb dquote dquote) with true. cbv iota. now rewrite Hread.
  - rewrite print_arr, parse_value_S. simpl app.
    rewrite skip_ws_keep by reflexivity.
    change (is_num_start "[") with false.
    change (Ascii.eqb "[" dquote) with false.
    change (Ascii.eqb "[" "[") with true. cbv iota.
    destruct items as [|x xs]; [reflexivity|].
    inversion Hwf as [| | | | ? Hall |]; subst.
    assert (Hback : Forall reads_back (x :: xs)).
    { rewrite Forall_forall in *. intros y Hy. apply IH; auto. }
    rewrite (items_read_back _ Hback ltac:(discriminate) f rest)
      by (simpl in Hfuel; simpl; lia).
    change (print_items (x :: xs))
      with (print x ++ match xs with
                       | [] => ["]"]
                       | _ => "," :: print_items xs
                       end).
    rewrite <- List.app_assoc, skip_ws_value.
    destruct (print_head x) as [c [tl [-> Hstart]]].
    apply value_start_facts in Hstart. destruct Hstart as [_ [Hclose _]].
    simpl app. cbv beta iota. now rewrite Hclose.
  - rewrite print_obj, parse_value_S. simpl app.
    rewrite skip_ws_keep by reflexivity.
    change (is_num_start "{") with false.
    change (Ascii.eqb "{" dquote) with false.
    change (Ascii.eqb "{" "[") with false.
    change (Ascii.eqb "{" "{") with true. cbv iota.
    destruct props as [|[k v] ps]; [reflexivity|].
    inversion Hwf as [| | | | | ? Hord Hall]; subst.
    assert (Hback : Forall (fun kv => reads_back (snd kv)) ((k, v) :: ps)).
    { rewrite Forall_forall in *. intros y Hy. apply IH; auto. }
    rewrite (members_read_back _ Hback ltac:(discriminate) f rest)
      by (simpl in Hfuel; simpl; lia).
    rewrite (build_object_ordered _ Hord).
    change (print_members ((k, v) :: ps))
      with (quote k ++ ":" :: print v ++ match ps with
                                         | [] => ["}"]
                                         | _ => "," :: print_members ps
                                         end).
    unfold quote. simpl app. rewrite skip_ws_keep by reflexivity.
    reflexivity.
Qed.

Lemma items_weight (items : list (JSValue Z)) :
  Forall (fun x => weight x <= List.length (print x)) items ->
  list_sum (map (fun x => S (weight x)) items) <= List.length (print_items items).
Proof.
  induction 1 as [|x xs Hx Hxs IH]; simpl; [lia|].
  rewrite length_app. destruct xs; simpl in *; lia.
Qed.

Lemma members_weight (props : list (string * JSValue Z)) :
  Forall (fun kv => weight (snd kv) <= List.length (print (snd kv))) props ->
  list_sum (map (fun kv => S (weight (snd kv))) props)
  <= List.length (print_members props).
Proof.
  induction 1 as [|kv ps Hv Hps IH]; simpl; [lia|].
  rewrite !length_app. simpl. rewrite length_app.
  destruct ps; simpl in *; lia.
Qed.

Lemma weight_le_length (v : JSValue Z) : weight v <= List.length (print v).
Proof.
  induction v as [| b | z | s | items IH | props IH] using value_ind.
  - simpl. lia.
  - destruct b; simpl; lia.
  - destruct (print_Z_head z) as [c [tl [Hhead _]]].
    change (print (JNum z)) with (print_Z z). rewrite Hhead. simpl. lia.
  - simpl. lia.
  - rewrite print_arr. pose proof (items_weight _ IH). simpl in *. lia.
  - rewrite print_obj. pose proof (members_weight _ IH). simpl in *. lia.
Qed.

(** Reading back what [stringify] wrote gives the value again. *)
Lemma parse_stringify_id (v : JSValue Z) :
  wf (rt := runtime) v -> parse (stringify v) = Some v.
Proof.
  intros Hwf. unfold parse, stringify.
  rewrite list_ascii_of_string_of_list_ascii.
  rewrite <- (List.app_nil_r (print v)) at 2.
  rewrite (value_reads_back v Hwf).
  - reflexivity.
  - pose proof (weight_le_length v). lia.
  - exact I.
Qed.

Lemma reparse_id (v : JSValue Z) : reparse (rt := runtime) v = v.
Proof.
  induction v as [| b | z | s | items IH | props IH] using value_ind;
    try reflexivity.
  - unfold reparse, reparse_num.
    change (@JSON_parse runtime) with parse.
    change (@JSON_stringify runtime) with stringify.
    rewrite parse_stringify_id; [reflexivity | constructor].
  - simpl. f_equal. induction IH as [|x xs Hx _ IHxs]; simpl; congruence.
  - simpl. f_equal.
    induction IH as [|[k x] xs Hx _ IHxs]; simpl in *; congruence.
Qed.

(** *** What is read is a JavaScript value *)

Lemma spread_wf (P : string * JSValue Z -> Prop) (ms acc : list (string * JSValue Z)) :
  keys_ordered (keys acc) -> Forall P acc -> Forall P ms ->
  keys_ordered (keys (spread_into acc ms)) /\ Forall P (spread_into acc ms).
Proof.
  revert acc. induction ms as [|[k v] ms IH]; intros acc Hord Hacc Hms.
  - split; assumption.
  - inversion Hms; subst. unfold spread_into. simpl. apply IH.
    + now apply set_prop_ordered.
    + now apply Forall_set.
    + assumption.
Qed.

Ltac split_match H :=
  repeat match type of H with
         | match ?x with _ => _ end = Some _ =>
             destruct x eqn:?; try discriminate H
         end.

Lemma parsed_wf (fuel : nat) :
  (forall cs v r, parse_value fuel cs = Some (v, r) -> wf (rt := runtime) v) /\
  (forall cs vs r, parse_items fuel cs = Some (vs, r) ->
                   Forall (wf (rt := runtime)) vs) /\
  (forall cs ms r, parse_members fuel cs = Some (ms, r) ->
                   Forall (fun kv => wf (rt := runtime) (snd kv)) ms).
Proof.
  induction fuel as [|f [IHv [IHi IHm]]];
    [repeat split; intros; discriminate|].
  split; [|split].
  - intros cs v r H. rewrite parse_value_S in H. split_match H;
      injection H as <- <-; try constructor;
      try solve [constructor | exact I | eapply IHi; eassumption];
      apply (spread_wf (fun kv => wf (rt := runtime) (snd kv)));
      solve [exact I | constructor | eapply IHm; eassumption].
  - intros cs vs r H. rewrite parse_items_S in H. split_match H;
      injection H as <- <-; constructor; eauto.
  - intros cs ms r H. rewrite parse_members_S in H. split_match H;
      injection H as <- <-; constructor; simpl; eauto.
Qed.

(** The sample runtime obeys the laws of the codec. *)
Lemma runtime_lawful : Lawful runtime.
Proof.
  constructor.
  - intros s v. simpl. unfold parse. intros H. split_match H.
    injection H as <-.
    eapply (proj1 (parsed_wf _)); eassumption.
  - intros v Hwf. rewrite reparse_id. now apply parse_stringify_id.
  - intros v _. now rewrite reparse_id.
Qed.

End MiniJSONFacts.

(* ===================================================================== *)
(** ** The keys of a spread *)
(* ===================================================================== *)

Module SpreadFacts.
Import JSString JS JSONLaws PropsFacts OrderFacts Notions StubNotions.
Local Open Scope list_scope.

Section Generic.
Context {A : Type}.
Implicit Types (k : string) (v : A) (ps acc I R : @Props A).

Lemma spread_ordered ps : forall acc,
  keys_ordered (keys acc) -> keys_ordered (keys (spread_into acc ps)).
Proof.
  unfold spread_into.
  induction ps as [|[k v] ps IH]; intros acc Hacc; simpl; [exact Hacc|].
  apply IH. now apply set_prop_ordered.
Qed.

Lemma spread_Forall (P : string * A -> Prop) ps : forall acc,
  Forall P acc -> Forall P ps -> Forall P (spread_into acc ps).
Proof.
  unfold spread_into.
  induction ps as [|[k v] ps IH]; intros acc Hacc Hps; simpl; [exact Hacc|].
  inversion Hps; subst. apply IH; [|assumption].
  now apply Forall_set.
Qed.

Lemma get_prop_skip k I R :
  ~ In k (keys I) -> get_prop k (I ++ R) = get_prop k R.
Proof. intros H. now rewrite get_app, (get_prop_None _ _ H). Qed.

Lemma replace_prop_skip k v I R :
  ~ In k (keys I) -> replace_prop k v (I ++ R) = I ++ replace_prop k v R.
Proof.
  induction I as [|[k' v'] I IH]; simpl; intros H; [reflexivity|].
  destruct (String.eqb k' k) eqn:E.
  - apply String.eqb_eq in E. subst. exfalso. apply H. now left.
  - f_equal. apply IH. intros Hin. apply H. now right.
Qed.

(** A new array index goes behind the smaller indices and before the
    other keys. *)
Lemma insert_index_after n k v I R :
  Forall (fun k' => exists n', array_index k' = Some n' /\ (n' < n)%N) (keys I) ->
  Forall (fun k' => array_index k' = None) (keys R) ->
  insert_index n k v (I ++ R) = I ++ (k, v) :: R.
Proof.
  induction I as [|[k' v'] I IH]; simpl; intros HI HR.
  - destruct R as [|[k' v'] R]; [reflexivity|]. simpl.
    inversion HR as [|? ? Hk' _]; subst. simpl in Hk'. now rewrite Hk'.
  - inversion HI as [|? ? [n' [Hk' Hlt]] HI']; subst. simpl in Hk'.
    rewrite Hk'. apply N.ltb_lt in Hlt. rewrite Hlt. f_equal.
    now apply IH.
Qed.

Lemma set_prop_index n k v I R :
  array_index k = Some n ->
  Forall (fun k' => exists n', array_index k' = Some n' /\ (n' < n)%N) (keys I) ->
  Forall (fun k' => array_index k' = None) (keys R) ->
  set_prop k v (I ++ R) = (I ++ [(k, v)]) ++ R.
Proof.
  intros Hk HI HR. unfold set_prop.
  assert (Hnew : has_prop k (I ++ R) = false).
  { destruct (has_prop k (I ++ R)) eqn:E; [|reflexivity].
    apply has_prop_In in E. rewrite keys_app in E.
    apply in_app_or in E. destruct E as [E | E].
    - rewrite Forall_forall in HI. destruct (HI _ E) as [n' [Hn' Hlt]].
      rewrite Hk in Hn'. inversion Hn'. lia.
    - rewrite Forall_forall in HR. rewrite (HR _ E) in Hk. discriminate. }
  rewrite Hnew, Hk, (insert_index_after _ _ _ _ _ HI HR).
  now rewrite <- List.app_assoc.
Qed.

Lemma set_prop_named k v I R :
  array_index k = None ->
  ~ In k (keys I) ->
  set_prop k v (I ++ R)
  = I ++ (if has_prop k R then replace_prop k v R else R ++ [(k, v)]).
Proof.
  intros Hk Hnot. unfold set_prop, has_prop.
  rewrite (get_prop_skip _ _ _ Hnot).
  destruct (get_prop k R).
  - now apply replace_prop_skip.
  - rewrite Hk. now rewrite List.app_assoc.
Qed.

(** The keys of [{...I, ...R, ...ps}] when [I] holds array indices below
    those of [ps] and [R] holds other keys: the indices of [ps] join those
    of [I], and the other keys of [ps] that are new follow those of [R]. *)
Lemma spread_keys ps : forall I R,
  keys_ordered (keys ps) ->
  Forall (fun k' => exists n', array_index k' = Some n' /\
                               Forall (above n') (keys ps)) (keys I) ->
  Forall (fun k' => array_index k' = None) (keys R) ->
  keys (spread_into (I ++ R) ps)
  = keys I ++ filter is_index (keys ps) ++ keys R ++
    filter (fun k => negb (is_index k) && negb (includes (keys R) k)) (keys ps).
Proof.
  induction ps as [|[k v] ps IH]; intros I R Hord HI HR.
  - simpl. now rewrite keys_app, List.app_nil_r.
  - change (keys ((k, v) :: ps)) with (k :: keys ps) in *.
    apply keys_ordered_cons in Hord. destruct Hord as [Hnotin [Hrest Hord]].
    change (spread_into (I ++ R) ((k, v) :: ps))
      with (spread_into (set_prop k v (I ++ R)) ps).
    simpl filter.
    destruct (array_index k) as [n|] eqn:Hk.
    + assert (Hidx : is_index k = true) by (unfold is_index; now rewrite Hk).
      rewrite Hidx. simpl negb. cbv iota. rewrite andb_false_l.
      assert (HI' : Forall (fun k' => exists n', array_index k' = Some n' /\
                                                 (n' < n)%N) (keys I)).
      { eapply Forall_impl; [|exact HI]. intros k' [n' [Hn' Hall]].
        exists n'. split; [exact Hn'|].
        inversion Hall as [|? ? Habove _]; subst.
        unfold above in Habove. rewrite Hk in Habove. exact Habove. }
      rewrite (set_prop_index _ _ _ _ _ Hk HI' HR).
      rewrite IH; [|exact Hord| |exact HR].
      * rewrite keys_app. simpl. now rewrite <- List.app_assoc.
      * rewrite keys_app. apply Forall_app. split.
        -- eapply Forall_impl; [|exact HI]. intros k' [n' [Hn' Hall]].
           exists n'. split; [exact Hn'|]. now inversion Hall.
        -- constructor; [|constructor]. exists n. split; assumption.
    + assert (Hidx : is_index k = false) by (unfold is_index; now rewrite Hk).
      rewrite Hidx.
      assert (HnotI : ~ In k (keys I)).
      { intros Hin. rewrite Forall_forall in HI.
        destruct (HI _ Hin) as [n' [Hn' _]]. rewrite Hk in Hn'. discriminate. }
      rewrite (set_prop_named _ _ _ _ Hk HnotI).
      assert (HI' : Forall (fun k' => exists n', array_index k' = Some n' /\
                                                 Forall (above n') (keys ps))
                           (keys I)).
      { eapply Forall_impl; [|exact HI]. intros k' [n' [Hn' Hall]].
        exists n'. split; [exact Hn'|]. now inversion Hall. }
      simpl negb. rewrite andb_true_l.
      destruct (has_prop k R) eqn:Hhas.
      * rewrite IH; [|exact Hord|exact HI'|now rewrite keys_replace].
        rewrite keys_replace.
        apply has_prop_In, MatcherFacts.includes_In in Hhas.
        now rewrite Hhas.
      * assert (Hinc : includes (keys R) k = false).
        { destruct (includes (keys R) k) eqn:E; [|reflexivity].
          apply MatcherFacts.includes_In, has_prop_In in E. congruence. }
        rewrite Hinc. simpl negb. cbv iota.
        rewrite IH; [|exact Hord|exact HI'|].
        -- rewrite keys_app. simpl. rewrite <- List.app_assoc. simpl.
           do 4 f_equal. apply filter_ext_in. intros x Hx. f_equal. f_equal.
           unfold includes. rewrite existsb_app. simpl.
           destruct (String.eqb x k) eqn:E; [|now rewrite !orb_false_r].
           apply String.eqb_eq in E. subst. contradiction.
        -- rewrite keys_app. apply Forall_app. split; [exact HR|].
           constructor; [exact Hk | constructor].
Qed.

(** The keys of [{ schemas, id, ...ps, meta }]. *)
Lemma stub_keys_spec ps (s i m : A) :
  keys_ordered (keys ps) ->
  keys (set_prop "meta" m (spread_into [("schemas", s); ("id", i)] ps))
  = stub_keys (keys ps).
Proof.
  intros Hord.
  pose proof (spread_keys ps [] [("schemas", s); ("id", i)] Hord
                (Forall_nil _)) as Hkeys.
  simpl app in Hkeys. simpl keys in Hkeys.
  specialize (Hkeys ltac:(repeat constructor)).
  set (X := spread_into [("schemas", s); ("id", i)] ps) in *.
  assert (Hfilter :
            filter (fun k => negb (is_index k)
                             && negb (String.eqb k "schemas"
                                      || (String.eqb k "id" || false)))
                   (keys ps)
            = filter (fun k => negb (is_index k)
                               && negb (String.eqb k "schemas")
                               && negb (String.eqb k "id")) (keys ps)).
  { apply filter_ext. intros k.
    destruct (is_index k), (String.eqb k "schemas"), (String.eqb k "id");
      reflexivity. }
  rewrite Hfilter in Hkeys. clear Hfilter.
  assert (Hmeta : has_prop "meta" X = includes (keys ps) "meta").
  { destruct (has_prop "meta" X) eqn:Hhas;
      destruct (includes (keys ps) "meta") eqn:Hinc; try reflexivity; exfalso.
    - apply has_prop_In in Hhas. rewrite Hkeys in Hhas. simpl in Hhas.
      apply in_app_or in Hhas.
      destruct Hhas as [Hin | [Hin | [Hin | Hin]]]; try discriminate.
      + apply filter_In in Hin. destruct Hin as [_ Hin]. discriminate.
      + apply filter_In in Hin. destruct Hin as [Hin _].
        apply MatcherFacts.includes_In in Hin. congruence.
    - apply MatcherFacts.includes_In in Hinc.
      assert (Hin : In "meta" (keys X)).
      { rewrite Hkeys. apply in_or_app. right. right. right.
        apply filter_In. split; [exact Hinc | reflexivity]. }
      apply has_prop_In in Hin. congruence. }
  unfold stub_keys, set_prop. rewrite Hmeta.
  destruct (includes (keys ps) "meta").
  - rewrite keys_replace, Hkeys. simpl. now rewrite List.app_nil_r.
  - change (array_index "meta") with (@None N). cbv iota.
    rewrite keys_app, Hkeys. simpl. now rewrite <- List.app_assoc.
Qed.

End Generic.

End SpreadFacts.

(* ===================================================================== *)
(** ** Facts about the response synthesizer *)
(* ===================================================================== *)

Module SynthFacts.
Import JSString Config JS Host Proxy JSONLaws Notions SampleBodies.
Local Open Scope list_scope.

Ltac run_io :=
  unfold bind, ret, lift, randomUUID, nowISOString, console_log, emit; simpl.

Section WithRuntime.
Context {rt : Runtime}.


(** C4, as the code has it.  Every synthesized response that has a body
    (every [scimError] response, and every result of [buildSilentResponse]
    and [buildEmptyResponse] for a method other than DELETE) carries the
    content type [application/scim+json]; the 204 answer to a DELETE has
    no body and no header at all. *)
Theorem synthesized_content_type :
  (forall (status : N) (detail : string),
      contentType (scimError status detail) = Some "application/scim+json" /\
      (scimError status detail).(Host.body) <> None) /\
  (forall (method : string) (body : Value) (pathname : string)
          (basePath : option string) (w : World),
      exists res w',
        buildSilentResponse method body pathname basePath w = (Normal res, w') /\
        if String.eqb (toUpperCase method) "DELETE"
        then res = mkResponse 204 "" [] None
        else contentType res = Some "application/scim+json" /\
             res.(Host.body) <> None) /\
  (forall (method pathname : string) (body : Value)
          (basePath : option string) (w : World),
      exists res w',
        buildEmptyResponse method pathname body basePath w = (Normal res, w') /\
        if String.eqb (toUpperCase method) "DELETE"
        then res = mkResponse 204 "" [] None
        else contentType res = Some "application/scim+json" /\
             res.(Host.body) <> None).
Proof.
  assert (Hsilent :
    forall method body pathname basePath w,
      exists res w',
        buildSilentResponse method body pathname basePath w = (Normal res, w') /\
        if String.eqb (toUpperCase method) "DELETE"
        then res = mkResponse 204 "" [] None
        else contentType res = Some "application/scim+json" /\
             res.(Host.body) <> None).
  { intros method body pathname basePath w. unfold buildSilentResponse.
    destruct (String.eqb (toUpperCase method) "DELETE").
    { run_io. eauto. }
    destruct (String.eqb (toUpperCase method) "POST").
    { run_io. do 2 eexists. split; [reflexivity|]. split; [reflexivity|discriminate]. }
    destruct (String.eqb (toUpperCase method) "PUT" ||
              String.eqb (toUpperCase method) "PATCH").
    { run_io. do 2 eexists. split; [reflexivity|]. split; [reflexivity|discriminate]. }
    destruct (isRequestToCollection pathname basePath); run_io;
      do 2 eexists; (split; [reflexivity|]); split;
        solve [reflexivity | discriminate]. }
  split; [|split].
  - intros status detail. split; [reflexivity | discriminate].
  - exact Hsilent.
  - intros method pathname body basePath w. unfold buildEmptyResponse.
    destruct (String.eqb (toUpperCase method) "DELETE") eqn:Hdel.
    { run_io. eauto. }
    destruct (String.eqb (toUpperCase method) "POST" ||
              String.eqb (toUpperCase method) "PUT" ||
              String.eqb (toUpperCase method) "PATCH").
    { specialize (Hsilent method body pathname basePath w).
      now rewrite Hdel in Hsilent. }
    destruct (isRequestToCollection pathname basePath); run_io;
      do 2 eexists; (split; [reflexivity|]); split;
        solve [reflexivity | discriminate].
Qed.

(** C9.  For a GET on a singleton path, [buildSilentResponse] answers 200
    with a stub resource that holds, next to its [schemas] tag, only an
    [id]: the identifier [crypto.randomUUID] has just produced. *)
Theorem buildSilentResponse_get_singleton :
  forall (method : string) (body : Value) (pathname : string)
         (basePath : option string) (w : World),
    reads method ->
    isRequestToCollection pathname basePath = false ->
    exists res w',
      buildSilentResponse method body pathname basePath w = (Normal res, w') /\
      res.(status) = 200%N /\
      contentType res = Some "application/scim+json" /\
      res.(Host.body) =
        Some (JSON_stringify
                (JObj [("schemas",
                        JArr [JStr "urn:ietf:params:scim:schemas:core:2.0:User"]);
                       ("id", JStr (w.(uuids) w.(uuids_drawn)))])) /\
      w'.(uuids_drawn) = S w.(uuids_drawn) /\
      w'.(clock_read) = w.(clock_read) /\
      w'.(trace) = w.(trace).
Proof.
  intros method body pathname basePath w Hget Hsingle.
  unfold buildSilentResponse. rewrite Hget, Hsingle. simpl. run_io.
  do 2 eexists. repeat split.
Qed.

Lemma String_of_N_inj (n m : N) : String_of_N n = String_of_N m -> n = m.
Proof.
  unfold String_of_N. intros H.
  apply DecimalN.Unsigned.to_uint_inj.
  pose proof (NilEmpty.usu (N.to_uint n)) as Hn.
  pose proof (NilEmpty.usu (N.to_uint m)) as Hm.
  rewrite H in Hn. congruence.
Qed.

Lemma In_keys_indexed (k : string) (items : list Value) (i : N) :
  In k (keys (indexed_from i items)) ->
  exists j, (i <= j)%N /\ k = String_of_N j.
Proof.
  revert i. induction items as [|x xs IH]; intros i; simpl; [tauto|].
  intros [<- | Hin].
  - exists i. split; [lia | reflexivity].
  - destruct (IH _ Hin) as [j [Hle ->]]. exists j. split; [lia | reflexivity].
Qed.

Lemma NoDup_keys_indexed (items : list Value) (i : N) :
  NoDup (keys (indexed_from i items)).
Proof.
  revert i. induction items as [|x xs IH]; intros i; simpl; constructor.
  - intros Hin. apply In_keys_indexed in Hin. destruct Hin as [j [Hle Heq]].
    apply String_of_N_inj in Heq. lia.
  - apply IH.
Qed.

Lemma keys_ordered_NoDup (ks : list string) : keys_ordered ks -> NoDup ks.
Proof.
  induction ks as [|k ks IH]; simpl; [constructor|].
  intros [Hnotin [_ Hord]]. constructor; auto.
Qed.

(** A JavaScript value has no property twice. *)
Lemma wf_spreadable_NoDup (body : Value) :
  wf body -> NoDup (keys (spreadable body)).
Proof.
  destruct body as [| b | n | s | items | props]; simpl;
    try (intros _; constructor).
  - intros _. apply NoDup_keys_indexed.
  - inversion 1; subst. now apply keys_ordered_NoDup.
Qed.

(** [String(i)] is an array index exactly below [2^32 - 1]. *)
Lemma array_index_String_of_N (i : N) :
  array_index (String_of_N i)
  = if N.ltb i 4294967295 then Some i else None.
Proof.
  unfold array_index, String_of_N.
  rewrite NilEmpty.usu, DecimalN.Unsigned.of_to.
  unfold String_of_N. now rewrite String.eqb_refl.
Qed.

(** The elements of an array are enumerated in the order of their
    positions. *)
Lemma keys_ordered_indexed (items : list Value) (i : N) :
  keys_ordered (keys (indexed_from i items)).
Proof.
  revert i. induction items as [|x xs IH]; intros i; [exact I|].
  change (keys (indexed_from i (x :: xs)))
    with (String_of_N i :: keys (indexed_from (N.succ i) xs)).
  apply OrderFacts.keys_ordered_cons. split; [|split; [|apply IH]].
  - intros Hin. apply In_keys_indexed in Hin. destruct Hin as [j [Hle Heq]].
    apply String_of_N_inj in Heq. lia.
  - rewrite array_index_String_of_N.
    destruct (N.ltb i 4294967295) eqn:Hi; apply Forall_forall; intros k Hin;
      apply In_keys_indexed in Hin; destruct Hin as [j [Hle ->]].
    + unfold above. rewrite array_index_String_of_N.
      destruct (N.ltb j 4294967295); [lia | exact I].
    + rewrite array_index_String_of_N.
      apply N.ltb_ge in Hi.
      destruct (N.ltb j 4294967295) eqn:Hj; [|reflexivity].
      apply N.ltb_lt in Hj. lia.
Qed.

Lemma wf_indexed (items : list Value) (i : N) :
  Forall wf items -> Forall (fun kv => wf (snd kv)) (indexed_from i items).
Proof.
  intros H. revert i. induction H as [|x xs Hx _ IH]; intros i; simpl;
    constructor; [exact Hx | apply IH].
Qed.

(** What a JavaScript value spreads: its properties in enumeration
    order, each a JavaScript value. *)
Lemma wf_spreadable (body : Value) :
  wf body ->
  keys_ordered (keys (spreadable body)) /\
  Forall (fun kv => wf (snd kv)) (spreadable body).
Proof.
  destruct body as [| b | n | s | items | props]; simpl;
    try (intros _; split; [exact I | constructor]).
  - inversion 1; subst. split; [apply keys_ordered_indexed | now apply wf_indexed].
  - inversion 1; subst. now split.
Qed.

(** The two meta blocks are JavaScript objects. *)
Lemma wf_createdMeta (created lastModified : string) :
  wf (createdMeta created lastModified).
Proof.
  constructor; simpl; try (repeat constructor);
    repeat split; auto; try (repeat constructor);
    intros H; repeat (destruct H as [H | H]; try discriminate H); exact H.
Qed.

Lemma wf_modifiedMeta (lastModified : string) :
  wf (modifiedMeta lastModified).
Proof.
  constructor; simpl; try (repeat constructor);
    repeat split; auto; try (repeat constructor);
    intros H; repeat (destruct H as [H | H]; try discriminate H); exact H.
Qed.

(** The stub is a JavaScript object when the body and the meta block are
    JavaScript values. *)
Lemma wf_stubObject (id : string) (body meta : Value) :
  wf body -> wf meta -> wf (stubObject id body meta).
Proof.
  intros Hbody Hmeta. destruct (wf_spreadable body Hbody) as [Hord Hvals].
  unfold stubObject. constructor.
  - apply OrderFacts.set_prop_ordered, SpreadFacts.spread_ordered.
    simpl. repeat split; auto; try (repeat constructor);
      intros [H | []]; discriminate H.
  - apply OrderFacts.Forall_set; [exact Hmeta|].
    apply SpreadFacts.spread_Forall; [|exact Hvals].
    repeat constructor.
Qed.

(** C10.  In the stubs built for POST, PUT and PATCH, every property of
    the request body other than [meta] is kept with the caller's value, in
    particular [id] and [schemas], which stand for the generated ones only
    when the body has none; [meta] is the synthesized block whatever the
    body says.  The stub has each key once, and no key but [schemas],
    [id], [meta] and those of the body: they come in the order in which
    [{ schemas, id, ...body, meta }] enumerates them, so that the values
    above are all there is in the serialized object. *)
Theorem buildSilentResponse_stub_precedence :
  forall (method : string) (body : Value) (pathname : string)
         (basePath : option string) (w : World),
    toUpperCase method = "POST" \/ toUpperCase method = "PUT" \/
    toUpperCase method = "PATCH" ->
    wf body ->
    exists stub meta w',
      buildSilentResponse method body pathname basePath w =
        (Normal (mkResponse
                   (if String.eqb (toUpperCase method) "POST" then 201 else 200)%N
                   "" [("Content-Type", "application/scim+json")]
                   (Some (JSON_stringify (JObj stub)))), w') /\
      meta = (if String.eqb (toUpperCase method) "POST"
              then JObj [("resourceType", JStr "User");
                         ("created", JStr (w.(clock) w.(clock_read)));
                         ("lastModified", JStr (w.(clock) (S w.(clock_read))));
                         ("location", JStr "")]
              else JObj [("resourceType", JStr "User");
                         ("lastModified", JStr (w.(clock) w.(clock_read)))]) /\
      get_prop "meta" stub = Some meta /\
      (forall k v,
          k <> "meta" -> get_prop k (spreadable body) = Some v ->
          get_prop k stub = Some v) /\
      (get_prop "id" (spreadable body) = None ->
       get_prop "id" stub = Some (JStr (w.(uuids) w.(uuids_drawn)))) /\
      (get_prop "schemas" (spreadable body) = None ->
       get_prop "schemas" stub =
         Some (JArr [JStr "urn:ietf:params:scim:schemas:core:2.0:User"])) /\
      NoDup (keys stub) /\
      keys stub = StubNotions.stub_keys (keys (spreadable body)) /\
      wf (JObj stub).
Proof.
  intros method body pathname basePath w Hwrite Hwf.
  pose proof (wf_spreadable_NoDup body Hwf) as Hnd.
  destruct (wf_spreadable body Hwf) as [Hord _].
  assert (Hstub : forall id meta,
    wf meta ->
    get_prop "meta"
      (set_prop "meta" meta
         (spread_into [("schemas", JArr [JStr USER_SCHEMA]); ("id", JStr id)]
                      (spreadable body))) = Some meta /\
    (forall k v,
        k <> "meta" -> get_prop k (spreadable body) = Some v ->
        get_prop k
          (set_prop "meta" meta
             (spread_into [("schemas", JArr [JStr USER_SCHEMA]); ("id", JStr id)]
                          (spreadable body))) = Some v) /\
    (get_prop "id" (spreadable body) = None ->
     get_prop "id"
       (set_prop "meta" meta
          (spread_into [("schemas", JArr [JStr USER_SCHEMA]); ("id", JStr id)]
                       (spreadable body))) = Some (JStr id)) /\
    (get_prop "schemas" (spreadable body) = None ->
     get_prop "schemas"
       (set_prop "meta" meta
          (spread_into [("schemas", JArr [JStr USER_SCHEMA]); ("id", JStr id)]
                       (spreadable body))) = Some (JArr [JStr USER_SCHEMA])) /\
    NoDup (keys (set_prop "meta" meta
          (spread_into [("schemas", JArr [JStr USER_SCHEMA]); ("id", JStr id)]
                       (spreadable body)))) /\
    keys (set_prop "meta" meta
          (spread_into [("schemas", JArr [JStr USER_SCHEMA]); ("id", JStr id)]
                       (spreadable body)))
    = StubNotions.stub_keys (keys (spreadable body)) /\
    wf (JObj (set_prop "meta" meta
          (spread_into [("schemas", JArr [JStr USER_SCHEMA]); ("id", JStr id)]
                       (spreadable body))))).
  { intros id meta Hmeta.
    pose proof (wf_stubObject id body meta Hwf Hmeta) as Hobj.
    unfold stubObject in Hobj.
    split; [apply PropsFacts.get_set_same|].
    split; [|split; [|split; [|split; [|split]]]].
    - intros k v Hk Hget.
      rewrite PropsFacts.get_set_other by congruence.
      rewrite PropsFacts.get_spread by exact Hnd. now rewrite Hget.
    - intros Hnone.
      rewrite PropsFacts.get_set_other by discriminate.
      rewrite PropsFacts.get_spread by exact Hnd. now rewrite Hnone.
    - intros Hnone.
      rewrite PropsFacts.get_set_other by discriminate.
      rewrite PropsFacts.get_spread by exact Hnd. now rewrite Hnone.
    - apply keys_ordered_NoDup. now inversion Hobj.
    - now apply SpreadFacts.stub_keys_spec.
    - exact Hobj. }
  unfold buildSilentResponse, stubObject.
  destruct Hwrite as [Hm | [Hm | Hm]]; rewrite Hm; simpl; run_io;
    do 3 eexists; (split; [reflexivity|]); (split; [reflexivity|]);
    apply Hstub; first [apply wf_createdMeta | apply wf_modifiedMeta].
Qed.

End WithRuntime.


(** C4 as stated fails: the answer to a silently voided [DELETE] is built
    as [new Response(null, { status: 204 })] and has no [Content-Type]. *)
Lemma delete_response_has_no_content_type :
  exists res,
    buildSilentResponse (rt := MiniJSON.runtime) "DELETE" JNull "/Users/abc" None
                        Samples.world = (Normal res, Samples.world) /\
    res.(status) = 204%N /\
    contentType res = None /\
    contentType res <> Some "application/scim+json".
Proof.
  eexists. split; [reflexivity|]. repeat split. discriminate.
Qed.

(** [GET /Groups/abc] under the "silent" action, in the sample world. *)
Lemma buildSilentResponse_get_singleton_witness :
  exists res w',
    buildSilentResponse (rt := MiniJSON.runtime) "GET" JNull "/Groups/abc" None
                        Samples.world = (Normal res, w') /\
    res.(status) = 200%N /\
    res.(Host.body) =
      Some (Samples.json "{'schemas':['urn:ietf:params:scim:schemas:core:2.0:User'],'id':'id-0'}") /\
    w'.(uuids_drawn) = 1.
Proof.
  destruct (buildSilentResponse_get_singleton (rt := MiniJSON.runtime)
              "GET" JNull "/Groups/abc" None Samples.world eq_refl eq_refl)
    as [res [w' [Hrun [Hst [_ [Hbody [Hdrawn _]]]]]]].
  exists res, w'. simpl in Hbody, Hdrawn. repeat split; assumption.
Defined.

Lemma buildSilentResponse_stub_precedence_witness :
  exists stub w',
    buildSilentResponse (rt := MiniJSON.runtime) "POST" ownIdBody "/Users" None
                        Samples.world
      = (Normal (mkResponse 201 "" [("Content-Type", "application/scim+json")]
                   (Some (MiniJSON.stringify (JObj stub)))), w') /\
    get_prop "id" stub = Some (JStr "caller-id") /\
    get_prop "displayName" stub = Some (JStr "Test") /\
    get_prop "meta" stub =
      Some (JObj [("resourceType", JStr "User");
                  ("created", JStr "2024-01-01T00:00:00.000Z");
                  ("lastModified", JStr "2024-01-01T00:00:01.000Z");
                  ("location", JStr "")]) /\
    keys stub = ["schemas"; "id"; "meta"; "displayName"].
Proof.
  assert (Hwf : wf (rt := MiniJSON.runtime) ownIdBody).
  { constructor.
    - simpl. repeat split; auto; intuition discriminate.
    - repeat constructor. }
  destruct (buildSilentResponse_stub_precedence (rt := MiniJSON.runtime)
              "POST" ownIdBody "/Users" None Samples.world
              (or_introl eq_refl) Hwf)
    as [stub [meta [w' [Hrun [Hmeta [Hgetmeta [Hkeep [_ [_ [_ [Hkeys _]]]]]]]]]]].
  exists stub, w'. split; [exact Hrun|]. split; [|split; [|split]].
  - apply Hkeep; [discriminate | reflexivity].
  - apply Hkeep; [discriminate | reflexivity].
  - subst meta. exact Hgetmeta.
  - exact Hkeys.
Defined.

End SynthFacts.

(* ===================================================================== *)
(** ** Facts about the forwarder *)
(* ===================================================================== *)

Module ForwardFacts.
Import JSString Config JS Host Proxy SynthFacts Notions.
Local Open Scope list_scope.

Section WithRuntime.
Context {rt : Runtime}.

(** C5.  [forwardRequest] calls the upstream exactly once.  When that call
    throws or rejects, it still returns normally: a 502 SCIM error whose
    detail is ["Upstream error: "] followed by the message of the thrown
    error (by ["upstream unreachable"] when what was thrown is not an
    [Error]). *)
Theorem forwardRequest_upstream_failure :
  forall (req : Request) (config : Config) (bodyText : option string)
         (w : World),
  exists upreq res w',
    forwardRequest req config bodyText w = (Normal res, w') /\
    w'.(trace) = w.(trace) ++ [EvFetch upreq] /\
    upreq.(up_method) = req.(method) /\
    forall err,
      w.(network) upreq = Rejected err ->
      res.(status) = 502%N /\
      contentType res = Some "application/scim+json" /\
      res.(Host.body) =
        Some (JSON_stringify
                (JObj [("schemas",
                        JArr [JStr "urn:ietf:params:scim:api:messages:2.0:Error"]);
                       ("status", JStr "502");
                       ("detail",
                        JStr ("Upstream error: " ++
                              match err with
                              | ErrorObject message => message
                              | OtherValue => "upstream unreachable"
                              end)%string)])).
Proof.
  intros req config bodyText w.
  unfold forwardRequest, upstreamFetch. run_io.
  match goal with
  | |- context [network w ?r] => exists r; destruct (network w r) as [up|err0]
  end.
  - do 2 eexists. split; [reflexivity|]. split; [reflexivity|].
    split; [reflexivity|]. intros err Herr. discriminate Herr.
  - do 2 eexists. split; [reflexivity|]. split; [reflexivity|].
    split; [reflexivity|]. intros err [= <-].
    repeat split.
Qed.

End WithRuntime.

(** The sample upstream refuses the connection. *)
Lemma forwardRequest_upstream_failure_witness :
  exists res w',
    forwardRequest (rt := MiniJSON.runtime)
                   (Samples.request "GET" "/Users" None)
                   (Samples.config None None) None Samples.world
      = (Normal res, w') /\
    res.(status) = 502%N /\
    res.(Host.body) =
      Some (Samples.json "{'schemas':['urn:ietf:params:scim:api:messages:2.0:Error'],'status':'502','detail':'Upstream error: connect ECONNREFUSED'}") /\
    w'.(trace) =
      [EvFetch (mkUpstreamRequest "https://example.com/Users" "GET" [] None)].
Proof.
  destruct (forwardRequest_upstream_failure (rt := MiniJSON.runtime)
              (Samples.request "GET" "/Users" None)
              (Samples.config None None) None Samples.world)
    as [upreq [res [w' [Hrun [Htrace [_ Hfail]]]]]].
  exists res, w'. split; [exact Hrun|].
  destruct (Hfail (ErrorObject "connect ECONNREFUSED") eq_refl)
    as [Hst [_ Hbody]].
  split; [exact Hst|]. split; [exact Hbody|].
  rewrite Htrace. simpl in Hrun. injection Hrun as _ Hw. subst w'.
  simpl in Htrace. injection Htrace as <-. reflexivity.
Defined.

End ForwardFacts.

(* ===================================================================== *)
(** ** Facts about the request handler *)
(* ===================================================================== *)

Module HandlerFacts.
Import JSString Config JS Host Proxy Index SynthFacts Notions.
Local Open Scope list_scope.

Section WithRuntime.
Context {rt : Runtime}.

(** C8.  A request matched by a "reject" rule is answered 403 with the
    SCIM error whose detail is "Operation <METHOD> <resource> is not
    permitted", with the method of the request and the resource of the
    rule. *)
Theorem fetch_reject :
  forall (config : Config) (req : Request) (rule : Rule) (w : World),
    matched config req = Some rule ->
    rule.(action) = Reject ->
    exists res w',
      fetch config req w = (Normal res, w') /\
      res.(status) = 403%N /\
      contentType res = Some "application/scim+json" /\
      res.(Host.body) =
        Some (JSON_stringify
                (JObj [("schemas",
                        JArr [JStr "urn:ietf:params:scim:api:messages:2.0:Error"]);
                       ("status", JStr "403");
                       ("detail",
                        JStr ("Operation " ++ req.(method) ++ " " ++
                              rule.(Config.resource) ++ " is not permitted")%string)])).
Proof.
  intros config req rule w Hmatch Hreject.
  unfold matched in Hmatch. unfold fetch.
  destruct (req_body req) as [text|]; run_io; rewrite Hmatch, Hreject;
    run_io; do 2 eexists; repeat split.
Qed.

Lemma buildSilentResponse_keeps_trace
      (method : string) (body : Value) (pathname : string)
      (basePath : option string) (w : World) :
  exists res w',
    buildSilentResponse method body pathname basePath w = (Normal res, w') /\
    w'.(trace) = w.(trace).
Proof.
  unfold buildSilentResponse.
  destruct (String.eqb (toUpperCase method) "DELETE"); [run_io; eauto|].
  destruct (String.eqb (toUpperCase method) "POST"); [run_io; eauto|].
  destruct (String.eqb (toUpperCase method) "PUT" ||
            String.eqb (toUpperCase method) "PATCH"); [run_io; eauto|].
  destruct (isRequestToCollection pathname basePath); run_io; eauto.
Qed.

Lemma buildEmptyResponse_keeps_trace
      (method pathname : string) (body : Value)
      (basePath : option string) (w : World) :
  exists res w',
    buildEmptyResponse method pathname body basePath w = (Normal res, w') /\
    w'.(trace) = w.(trace).
Proof.
  unfold buildEmptyResponse.
  destruct (String.eqb (toUpperCase method) "DELETE"); [run_io; eauto|].
  destruct (String.eqb (toUpperCase method) "POST" ||
            String.eqb (toUpperCase method) "PUT" ||
            String.eqb (toUpperCase method) "PATCH");
    [apply buildSilentResponse_keeps_trace|].
  destruct (isRequestToCollection pathname basePath); run_io; eauto.
Qed.

Lemma matched_logs_are_logs (req : Request) (rule : Rule) :
  Forall is_log (matched_logs req rule).
Proof.
  unfold matched_logs. apply Forall_app. split.
  - destruct (req_body req); repeat constructor.
  - repeat constructor.
Qed.

Lemma fetch_matched (config : Config) (req : Request) (rule : Rule) (w : World) :
  matched config req = Some rule ->
  fetch config req w =
  match rule.(action) with
  | Reject =>
      (Normal (scimError 403
                 ("Operation " ++ req.(method) ++ " " ++ rule.(Config.resource)
                    ++ " is not permitted")%string),
       logged w (matched_logs req rule))
  | Silent =>
      buildSilentResponse req.(method) (parseBody req.(req_body)) req.(pathname)
                          config.(server).(base_path)
                          (logged w (matched_logs req rule))
  | Empty =>
      buildEmptyResponse req.(method) req.(pathname) (parseBody req.(req_body))
                         config.(server).(base_path)
                         (logged w (matched_logs req rule))
  end.
Proof.
  intros Hmatch. unfold matched in Hmatch.
  unfold fetch, matched_logs, logged.
  destruct (req_body req) as [text|]; run_io; rewrite Hmatch;
    destruct (action rule); run_io; rewrite <- ?app_assoc; reflexivity.
Qed.

(** C2.  When a rule matches, the handler returns normally with the
    response its action synthesizes (the 403 error, the result of
    [buildSilentResponse], or the result of [buildEmptyResponse]), and all
    it does besides is console output: [applyTransforms] is not called,
    [forwardRequest] is not called, the upstream is not fetched.  So an
    event of these three kinds is only ever seen when no rule matched. *)
Theorem fetch_matched_rule_short_circuits :
  forall (config : Config) (req : Request) (w : World),
    (forall rule,
        matched config req = Some rule ->
        exists res w' logs,
          fetch config req w = (Normal res, w') /\
          w'.(trace) = w.(trace) ++ logs /\
          Forall is_log logs /\
          match rule.(action) with
          | Reject =>
              res = scimError 403
                      ("Operation " ++ req.(method) ++ " " ++
                       rule.(Config.resource) ++ " is not permitted")%string
          | Silent =>
              buildSilentResponse req.(method) (parseBody req.(req_body))
                                  req.(pathname) config.(server).(base_path)
                                  (logged w logs) = (Normal res, w')
          | Empty =>
              buildEmptyResponse req.(method) req.(pathname)
                                 (parseBody req.(req_body))
                                 config.(server).(base_path)
                                 (logged w logs) = (Normal res, w')
          end) /\
    (forall es,
        (snd (fetch config req w)).(trace) = w.(trace) ++ es ->
        (exists e, In e es /\ ~ is_log e) ->
        matched config req = None).
Proof.
  intros config req w.
  assert (Hsome : forall rule,
    matched config req = Some rule ->
    exists res w' logs,
      fetch config req w = (Normal res, w') /\
      w'.(trace) = w.(trace) ++ logs /\
      Forall is_log logs /\
      match rule.(action) with
      | Reject =>
          res = scimError 403
                  ("Operation " ++ req.(method) ++ " " ++
                   rule.(Config.resource) ++ " is not permitted")%string
      | Silent =>
          buildSilentResponse req.(method) (parseBody req.(req_body))
                              req.(pathname) config.(server).(base_path)
                              (logged w logs) = (Normal res, w')
      | Empty =>
          buildEmptyResponse req.(method) req.(pathname)
                             (parseBody req.(req_body))
                             config.(server).(base_path)
                             (logged w logs) = (Normal res, w')
      end).
  { intros rule Hmatch. rewrite (fetch_matched _ _ _ w Hmatch).
    pose proof (matched_logs_are_logs req rule) as Hlogs.
    destruct (action rule).
    - do 2 eexists. exists (matched_logs req rule).
      split; [reflexivity|]. split; [reflexivity|]. split; [exact Hlogs|].
      reflexivity.
    - destruct (buildSilentResponse_keeps_trace
                  (method req) (parseBody (req_body req)) (pathname req)
                  (base_path (server config)) (logged w (matched_logs req rule)))
        as [res [w' [Hrun Htrace]]].
      exists res, w', (matched_logs req rule).
      split; [exact Hrun|]. split; [exact Htrace|]. split; assumption.
    - destruct (buildEmptyResponse_keeps_trace
                  (method req) (pathname req) (parseBody (req_body req))
                  (base_path (server config)) (logged w (matched_logs req rule)))
        as [res [w' [Hrun Htrace]]].
      exists res, w', (matched_logs req rule).
      split; [exact Hrun|]. split; [exact Htrace|]. split; assumption. }
  split; [exact Hsome|].
  intros es Htrace [e [Hin Hnotlog]].
  destruct (matched config req) as [rule|] eqn:Hmatch; [|reflexivity].
  exfalso.
  destruct (Hsome rule eq_refl) as [res [w' [logs [Hrun [Hlogs [Hall _]]]]]].
  rewrite Hrun in Htrace. simpl in Htrace. rewrite Hlogs in Htrace.
  apply app_inv_head in Htrace. subst es.
  rewrite Forall_forall in Hall. exact (Hnotlog (Hall e Hin)).
Qed.

End WithRuntime.

(** The scenario of the specification: [DELETE /Users/abc] against the
    rule that rejects DELETE on [/Users]. *)
Lemma fetch_reject_witness :
  exists res w',
    fetch (rt := MiniJSON.runtime) (Samples.config None None)
          (Samples.request "DELETE" "/Users/abc" None) Samples.world
      = (Normal res, w') /\
    res.(status) = 403%N /\
    res.(Host.body) =
      Some (Samples.json "{'schemas':['urn:ietf:params:scim:api:messages:2.0:Error'],'status':'403','detail':'Operation DELETE /Users is not permitted'}").
Proof.
  destruct (fetch_reject (rt := MiniJSON.runtime) (Samples.config None None)
              (Samples.request "DELETE" "/Users/abc" None)
              (mkRule "/Users" ["DELETE"] Reject) Samples.world
              eq_refl eq_refl)
    as [res [w' [Hrun [Hst [_ Hbody]]]]].
  exists res, w'. repeat split; assumption.
Defined.

(** [POST /Bulk] is voided by the "silent" rule: a 201 stub comes back and
    the handler has only written to the console. *)
Lemma fetch_matched_rule_short_circuits_witness :
  exists res w',
    fetch (rt := MiniJSON.runtime) (Samples.config None (Some "work"))
          (Samples.request "POST" "/Bulk" (Some SampleBodies.untypedEmail))
          Samples.world = (Normal res, w') /\
    res.(status) = 201%N /\
    Forall is_log w'.(trace).
Proof.
  destruct (fetch_matched_rule_short_circuits (rt := MiniJSON.runtime)
              (Samples.config None (Some "work"))
              (Samples.request "POST" "/Bulk" (Some SampleBodies.untypedEmail))
              Samples.world) as [Hmatched _].
  destruct (Hmatched (mkRule "/Bulk" ["POST"] Silent) eq_refl)
    as [res [w' [logs [Hrun [Htrace [Hlogs Hsilent]]]]]].
  exists res, w'. split; [exact Hrun|]. split.
  - cbv beta iota in Hsilent. simpl in Hsilent.
    injection Hsilent as <- _. reflexivity.
  - rewrite Htrace. exact Hlogs.
Defined.

End HandlerFacts.

(* ===================================================================== *)
(** ** Facts about the body transformer *)
(* ===================================================================== *)

Module TransformFacts.
Import JSString Config JS Host Proxy JSONLaws Notions.
Local Open Scope list_scope.

Lemma replace_prop_same {A} (k : string) (v : A) (ps : @Props A) :
  get_prop k ps = Some v -> replace_prop k v ps = ps.
Proof.
  induction ps as [|[k' v'] ps IH]; simpl; [reflexivity|].
  destruct (String.eqb k' k).
  - now intros [= ->].
  - intros H. now rewrite IH.
Qed.

Lemma get_prop_map {A B} (f : A -> B) (k : string) (ps : @Props A) :
  get_prop k (map (fun kv => (fst kv, f (snd kv))) ps) =
  option_map f (get_prop k ps).
Proof.
  induction ps as [|[k' v'] ps IH]; simpl; [reflexivity|].
  destruct (String.eqb k' k); [reflexivity | exact IH].
Qed.

Section WithRuntime.
Context {rt : Runtime}.

Lemma applyTransforms_unfold (bodyText : string) (config : Config) :
  applyTransforms bodyText config =
  match configured config.(transforms).(inject_email_type) with
  | None => Normal bodyText
  | Some emailType =>
      match JSON_parse bodyText with
      | None => Normal bodyText
      | Some parsed => inject emailType bodyText parsed
      end
  end.
Proof. reflexivity. Qed.

(** The outcomes of [inject], case by case. *)
Lemma inject_cases (emailType bodyText : string) (parsed : Value) (out : string) :
  inject emailType bodyText parsed = Normal out ->
  out = bodyText \/
  exists props first others,
    parsed = JObj props /\
    get_prop "emails" props = Some (JArr (first :: others)) /\
    truthy_value first = true /\
    ((exists items, first = JArr items /\ out = JSON_stringify parsed) \/
     (exists fs,
         first = JObj fs /\
         truthy_read (get_prop "type" fs) = false /\
         out = JSON_stringify
                 (JObj (replace_prop "emails"
                          (JArr (JObj (set_prop "type" (JStr emailType) fs)
                                   :: others))
                          props)))).
Proof.
  unfold inject.
  destruct parsed as [| b | n | s | items | props]; simpl;
    try (intros [= <-]; now left); try discriminate.
  destruct (get_prop "emails" props) as [emails|] eqn:Hemails;
    [|intros [= <-]; now left].
  destruct emails as [| b | n | s | [|first others] | ps];
    try (intros [= <-]; now left).
  destruct (truthy_value first) eqn:Htruthy; [|intros [= <-]; now left].
  destruct first as [| b | n | s | items | fs]; simpl;
    try discriminate.
  - intros [= <-]. right. exists props, (JArr items), others.
    repeat split; try assumption. left. exists items. split; [reflexivity|].
    now rewrite (replace_prop_same _ _ _ Hemails).
  - destruct (truthy_read (get_prop "type" fs)) eqn:Htype; simpl.
    + intros [= <-]. now left.
    + intros [= <-]. right. exists props, (JObj fs), others.
      repeat split; try assumption. right. exists fs. repeat split. exact Htype.
Qed.


Lemma configured_truthy (o : option string) (t : string) :
  configured o = Some t -> truthy t = true.
Proof.
  unfold configured. destruct o as [b|]; [|discriminate].
  destruct (truthy b) eqn:Hb; [|discriminate]. now intros [= <-].
Qed.

Lemma wf_obj_inv (props : Props) :
  wf (JObj props) ->
  keys_ordered (keys props) /\ Forall (fun kv => wf (snd kv)) props.
Proof. inversion 1; auto. Qed.

Lemma wf_arr_inv (items : list Value) : wf (JArr items) -> Forall wf items.
Proof. inversion 1; auto. Qed.

(** The body stays a JavaScript value when the type is injected. *)
Lemma wf_injected (emailType : string) (props fs : Props) (others : list Value) :
  wf (JObj props) ->
  get_prop "emails" props = Some (JArr (JObj fs :: others)) ->
  wf (JObj (replace_prop "emails"
              (JArr (JObj (set_prop "type" (JStr emailType) fs) :: others))
              props)).
Proof.
  intros Hwf Hemails. apply wf_obj_inv in Hwf. destruct Hwf as [Hord Hall].
  pose proof (OrderFacts.get_prop_Forall _ _ _ _ Hall Hemails) as Hwe.
  simpl in Hwe. apply wf_arr_inv in Hwe.
  inversion Hwe as [|? ? Hfirst Hothers]; subst.
  apply wf_obj_inv in Hfirst. destruct Hfirst as [Hfo Hfa].
  constructor.
  - now rewrite PropsFacts.keys_replace.
  - apply OrderFacts.Forall_replace; [|exact Hall]. simpl.
    constructor. constructor; [|exact Hothers]. constructor.
    + now apply OrderFacts.set_prop_ordered.
    + apply OrderFacts.Forall_set; [constructor | exact Hfa].
Qed.

(** X1.  With the transform configured, a body that parses to [null] makes
    [applyTransforms] throw: the read of [parsed["emails"]] is outside the
    [try] block. *)
Theorem applyTransforms_null_body_throws :
  forall (bodyText : string) (config : Config) (emailType : string),
    configured config.(transforms).(inject_email_type) = Some emailType ->
    JSON_parse bodyText = Some JNull ->
    applyTransforms bodyText config = Throw TypeError.
Proof.
  intros bodyText config emailType Hcfg Hparse.
  rewrite applyTransforms_unfold, Hcfg, Hparse. reflexivity.
Qed.

Section Idempotence.
Context {laws : Lawful rt}.

(** C6.  [applyTransforms] is idempotent: running it on its own output
    gives that output again (and where the first run throws, there is no
    output to run it on). *)
Theorem applyTransforms_idempotent :
  forall (x : string) (config : Config),
    bindC (applyTransforms x config) (fun y => applyTransforms y config)
    = applyTransforms x config.
Proof.
  intros x config. rewrite (applyTransforms_unfold x).
  destruct (configured (inject_email_type (transforms config)))
    as [emailType|] eqn:Hcfg.
  2: { simpl. rewrite applyTransforms_unfold, Hcfg. reflexivity. }
  pose proof (configured_truthy _ _ Hcfg) as Htruthy.
  destruct (JSON_parse x) as [parsed|] eqn:Hparse.
  2: { simpl. rewrite applyTransforms_unfold, Hcfg, Hparse. reflexivity. }
  pose proof (parse_wf _ _ Hparse) as Hwf.
  destruct (inject emailType x parsed) as [out|e] eqn:Hinj; [|reflexivity].
  simpl. rewrite applyTransforms_unfold, Hcfg.
  destruct (inject_cases _ _ _ _ Hinj)
    as [-> | (props & first & others & -> & Hemails & _ & Hcase)].
  { now rewrite Hparse, Hinj. }
  destruct Hcase as [(items & -> & ->) | (fs & -> & Htype & ->)].
  - (* the first entry is an array: the text is the body serialized again *)
    rewrite (parse_stringify _ Hwf).
    unfold inject. simpl. rewrite get_prop_map, Hemails. simpl.
    rewrite replace_prop_same.
    + f_equal. exact (stringify_reparse _ Hwf).
    + now rewrite get_prop_map, Hemails.
  - (* the first entry is an object that has just received its type *)
    pose proof (wf_injected emailType _ _ _ Hwf Hemails) as Hwf'.
    rewrite (parse_stringify _ Hwf').
    unfold inject. simpl. rewrite get_prop_map.
    rewrite PropsFacts.get_replace_same
      by (unfold has_prop; now rewrite Hemails).
    simpl. rewrite get_prop_map, PropsFacts.get_set_same. simpl.
    now rewrite Htruthy.
Qed.

End Idempotence.

End WithRuntime.

End TransformFacts.

Module TransformExamples.
Import JSString Config JS Host Proxy JSONLaws TransformFacts SampleBodies Notions.
Local Open Scope list_scope.

Lemma applyTransforms_idempotent_witness :
  bindC (applyTransforms (rt := MiniJSON.runtime) untypedEmail
                         (Samples.config None (Some "work")))
        (fun y => applyTransforms (rt := MiniJSON.runtime) y
                                  (Samples.config None (Some "work")))
  = applyTransforms (rt := MiniJSON.runtime) untypedEmail
                    (Samples.config None (Some "work")) /\
  applyTransforms (rt := MiniJSON.runtime) untypedEmail
                  (Samples.config None (Some "work"))
  = Normal (Samples.json "{'userName':'test','emails':[{'value':'a@b.com','primary':true,'type':'work'}]}").
Proof.
  split.
  - exact (applyTransforms_idempotent
             (laws := MiniJSONFacts.runtime_lawful)
             untypedEmail (Samples.config None (Some "work"))).
  - reflexivity.
Defined.

Lemma applyTransforms_null_body_throws_witness :
  applyTransforms (rt := MiniJSON.runtime) "null"
                  (Samples.config None (Some "work")) = Throw TypeError.
Proof.
  exact (applyTransforms_null_body_throws (rt := MiniJSON.runtime) "null"
           (Samples.config None (Some "work")) "work" eq_refl eq_refl).
Defined.


End TransformExamples.

(* ===================================================================== *)
(** ** More about paths and rule matching *)
(* ===================================================================== *)

Module PathFacts.
Import JSString Config Proxy Notions PathNotions.

Lemma is_slash_eq (c : ascii) : is_slash c = true -> c = "/"%char.
Proof. unfold is_slash. apply Ascii.eqb_eq. Qed.

Lemma takeSegment_split (s : string) :
  exists tail,
    s = takeSegment s ++ tail /\
    slash_free (takeSegment s) = true /\ segment_end tail = true.
Proof.
  induction s as [|c s [tail [Heq [Hfree Hend]]]]; simpl.
  - exists "". auto.
  - destruct (is_slash c) eqn:Hc.
    + exists (String c s). simpl. auto.
    + exists tail. simpl. rewrite Hc, Hfree. simpl.
      split; [now rewrite <- Heq | auto].
Qed.

Lemma takeSegment_append (seg tail : string) :
  slash_free seg = true -> segment_end tail = true ->
  takeSegment (seg ++ tail) = seg.
Proof.
  intros Hfree Hend. induction seg as [|c seg IH]; simpl in *.
  - destruct tail as [|c tail]; [reflexivity|]. simpl in *. now rewrite Hend.
  - apply andb_true_iff in Hfree. destruct Hfree as [Hc Hfree].
    apply negb_true_iff in Hc. rewrite Hc. now rewrite IH.
Qed.

(** X2.  Without a base path, [extractResource] finds a resource exactly
    in the paths that begin with ["/"] and a non-empty segment; the
    resource is the slash and that segment, whatever follows the
    segment. *)
Theorem extractResource_is_first_segment :
  forall (p r : string),
    extractResource p None = Some r <->
    exists seg tail,
      p = "/" ++ seg ++ tail /\ seg <> "" /\
      slash_free seg = true /\ segment_end tail = true /\
      r = "/" ++ seg.
Proof.
  intros p r. unfold extractResource. simpl. unfold matchLeadingSegment. split.
  - destruct p as [|c rest]; [discriminate|].
    destruct (is_slash c) eqn:Hc; [|discriminate].
    apply is_slash_eq in Hc. subst c.
    destruct (takeSegment_split rest) as [tail [Heq [Hfree Hend]]].
    destruct (takeSegment rest) as [|d seg] eqn:Hseg; [discriminate|].
    intros [= <-]. exists (String d seg), tail.
    repeat split; auto; [|discriminate]. simpl in *. now rewrite <- Heq.
  - intros (seg & tail & -> & Hne & Hfree & Hend & ->). simpl.
    rewrite (takeSegment_append _ _ Hfree Hend).
    destruct seg; [contradiction | reflexivity].
Qed.

Lemma startsWith_append (b p : string) : startsWith (b ++ p) b = true.
Proof.
  induction b as [|c b IH]; simpl; [now destruct p|].
  now rewrite Ascii.eqb_refl, IH.
Qed.

Lemma slice_append (b p : string) : slice (b ++ p) (String.length b) = p.
Proof. induction b as [|c b IH]; simpl; [now destruct p | exact IH]. Qed.

(** X3.  A path under the base path is treated as the same path with no
    base path configured, by all three matcher functions. *)
Theorem base_path_is_stripped :
  forall (b p method : string) (rules : list Rule),
    extractResource (b ++ p) (Some b) = extractResource p None /\
    isRequestToCollection (b ++ p) (Some b) = isRequestToCollection p None /\
    matchRule (b ++ p) method rules (Some b) = matchRule p method rules None.
Proof.
  intros b p method rules.
  assert (Hres : extractResource (b ++ p) (Some b) = extractResource p None).
  { unfold extractResource, configured. destruct (truthy b) eqn:Hb.
    - now rewrite startsWith_append, slice_append.
    - destruct b; [reflexivity | discriminate]. }
  split; [exact Hres|]. split.
  - unfold isRequestToCollection, configured. destruct (truthy b) eqn:Hb.
    + now rewrite slice_append.
    + destruct b; [reflexivity | discriminate].
  - unfold matchRule. now rewrite Hres.
Qed.

Lemma append_empty (s : string) : s ++ "" = s.
Proof. induction s as [|c s IH]; simpl; [reflexivity | now rewrite IH]. Qed.

Lemma split_slash_segment (seg t : string) :
  slash_free seg = true ->
  split_slash (seg ++ String "/" t) = seg :: split_slash t.
Proof.
  intros Hfree. induction seg as [|c seg IH]; simpl in *; [reflexivity|].
  apply andb_true_iff in Hfree. destruct Hfree as [Hc Hfree].
  apply negb_true_iff in Hc. rewrite Hc. now rewrite IH.
Qed.

Lemma split_slash_last (seg : string) :
  slash_free seg = true -> split_slash seg = [seg].
Proof.
  induction seg as [|c seg IH]; simpl; [reflexivity|].
  intros Hfree. apply andb_true_iff in Hfree. destruct Hfree as [Hc Hfree].
  apply negb_true_iff in Hc. rewrite Hc. now rewrite IH.
Qed.

Lemma split_slash_cons (s : string) :
  exists piece pieces, split_slash s = piece :: pieces.
Proof.
  induction s as [|c s [piece [pieces IH]]]; simpl; [eauto|].
  destruct (is_slash c); [eauto|]. rewrite IH. eauto.
Qed.

Lemma no_segment_all_slashes (t : string) :
  (List.length (filter truthy (split_slash t)) =? 0)%nat = all_slashes t.
Proof.
  induction t as [|c t IH]; simpl; [reflexivity|].
  destruct (is_slash c); simpl; [exact IH|].
  destruct (split_slash_cons t) as [piece [pieces ->]]. reflexivity.
Qed.

(** X4.  A path whose resource segment is followed only by slashes is a
    collection path; anything else after the resource makes it a
    singleton path.  So ["/Users/"] is a collection and ["/Users//x"] is
    not. *)
Theorem collection_iff_only_slashes_follow :
  forall (seg tail : string),
    seg <> "" -> slash_free seg = true -> segment_end tail = true ->
    isRequestToCollection ("/" ++ seg ++ tail) None = all_slashes tail.
Proof.
  intros seg tail Hne Hfree Hend.
  unfold isRequestToCollection. simpl.
  destruct tail as [|c t].
  - rewrite append_empty, (split_slash_last _ Hfree).
    destruct seg; [contradiction | reflexivity].
  - simpl in Hend. apply is_slash_eq in Hend. subst c.
    rewrite (split_slash_segment _ _ Hfree). simpl.
    destruct seg as [|d seg]; [contradiction|]. simpl.
    rewrite <- no_segment_all_slashes.
    now destruct (List.length (filter truthy (split_slash t))).
Qed.

Lemma matchRule_scan_app (res up : string) (rules more : list Rule) :
  matchRule_scan res up (rules ++ more)%list =
  match matchRule_scan res up rules with
  | Some rule => Some rule
  | None => matchRule_scan res up more
  end.
Proof.
  induction rules as [|rule rules IH]; simpl; [reflexivity|].
  destruct (negb (String.eqb (Config.resource rule) res)); [exact IH|].
  destruct (includes (methods rule) "*" || includes (methods rule) up);
    [reflexivity | exact IH].
Qed.

Lemma matchRule_scan_filter (res up : string) (rules : list Rule) :
  matchRule_scan res up
    (filter (fun rule => String.eqb rule.(Config.resource) res) rules)
  = matchRule_scan res up rules.
Proof.
  induction rules as [|rule rules IH]; simpl; [reflexivity|].
  destruct (String.eqb (Config.resource rule) res) eqn:Hres; simpl.
  - rewrite Hres. simpl. now rewrite IH.
  - exact IH.
Qed.

(** X5.  The first match wins: rules appended to the list are consulted
    only when none of the earlier rules matches, and the rules written
    for other resources have no influence on the result. *)
Theorem matchRule_first_match_wins :
  forall (p method : string) (rules more : list Rule) (b : option string),
    matchRule p method (rules ++ more)%list b =
      match matchRule p method rules b with
      | Some rule => Some rule
      | None => matchRule p method more b
      end /\
    forall res,
      extractResource p b = Some res ->
      matchRule p method
                (filter (fun rule => String.eqb rule.(Config.resource) res) rules) b
      = matchRule p method rules b.
Proof.
  intros p method rules more b. unfold matchRule. split.
  - destruct (extractResource p b) as [res|]; [|reflexivity].
    destruct (negb (truthy res)); [reflexivity|]. apply matchRule_scan_app.
  - intros res ->. destruct (negb (truthy res)); [reflexivity|].
    apply matchRule_scan_filter.
Qed.

End PathFacts.

(* ===================================================================== *)
(** ** More about the response synthesizer *)
(* ===================================================================== *)

Module MethodFacts.
Import JSString Config JS Host Proxy Notions MethodNotions SynthFacts.

Lemma upper_char_idempotent (c : ascii) : upper_char (upper_char c) = upper_char c.
Proof. destruct c as [[] [] [] [] [] [] [] []]; reflexivity. Qed.

Lemma toUpperCase_idempotent (s : string) :
  toUpperCase (toUpperCase s) = toUpperCase s.
Proof.
  induction s as [|c s IH]; simpl; [reflexivity|].
  now rewrite upper_char_idempotent, IH.
Qed.

Section WithRuntime.
Context {rt : Runtime}.

(** X6.  Only the upper-cased method counts: two methods that differ in
    the case of their letters are matched against the rules alike and
    get the same synthesized responses, and upper-casing a method first
    changes nothing. *)
Theorem method_case_is_irrelevant :
  forall (m m' : string),
    toUpperCase m = toUpperCase m' ->
    (forall p rules b, matchRule p m rules b = matchRule p m' rules b) /\
    (forall body p b w,
        buildSilentResponse m body p b w = buildSilentResponse m' body p b w) /\
    (forall p body b w,
        buildEmptyResponse m p body b w = buildEmptyResponse m' p body b w) /\
    toUpperCase (toUpperCase m) = toUpperCase m.
Proof.
  intros m m' Hsame.
  assert (Hsilent : forall body p b w,
             buildSilentResponse m body p b w = buildSilentResponse m' body p b w).
  { intros body p b w. unfold buildSilentResponse. now rewrite Hsame. }
  split; [|split; [exact Hsilent | split]].
  - intros p rules b. unfold matchRule. now rewrite Hsame.
  - intros p body b w. unfold buildEmptyResponse. rewrite Hsame.
    destruct (String.eqb (toUpperCase m') "DELETE"); [reflexivity|].
    destruct (String.eqb (toUpperCase m') "POST" ||
              String.eqb (toUpperCase m') "PUT" ||
              String.eqb (toUpperCase m') "PATCH"); [apply Hsilent|].
    reflexivity.
  - apply toUpperCase_idempotent.
Qed.

Lemma falls_through_tests (method : string) :
  falls_through method = true ->
  String.eqb (toUpperCase method) "DELETE" = false /\
  String.eqb (toUpperCase method) "POST" = false /\
  String.eqb (toUpperCase method) "PUT" = false /\
  String.eqb (toUpperCase method) "PATCH" = false.
Proof.
  unfold falls_through. rewrite !andb_true_iff, !negb_true_iff. tauto.
Qed.

(** X7.  A method the synthesizers have no branch for (HEAD, OPTIONS,
    anything) is answered exactly like a GET, and the request body plays
    no part in the answer. *)
Theorem other_methods_are_answered_like_GET :
  forall (method : string) (body body' : Value) (p : string)
         (b : option string) (w : World),
    falls_through method = true ->
    buildSilentResponse method body p b w = buildSilentResponse "GET" body' p b w /\
    buildEmptyResponse method p body b w = buildEmptyResponse "GET" p body' b w.
Proof.
  intros method body body' p b w Hft.
  destruct (falls_through_tests _ Hft) as [Hd [Hpo [Hpu Hpa]]].
  unfold buildEmptyResponse, buildSilentResponse.
  rewrite Hd, Hpo, Hpu, Hpa. simpl. split; reflexivity.
Qed.

(** X8.  The "empty" action answers exactly like the "silent" action,
    except for a read of a singleton path, which it answers with the 404
    error. *)
Theorem empty_differs_from_silent_on_singleton_reads :
  forall (method p : string) (body : Value) (b : option string) (w : World),
    buildEmptyResponse method p body b w =
    if falls_through method && negb (isRequestToCollection p b)
    then (Normal (scimError 404 "Resource not found"), w)
    else buildSilentResponse method body p b w.
Proof.
  intros method p body b w.
  unfold falls_through, buildEmptyResponse, buildSilentResponse.
  destruct (String.eqb (toUpperCase method) "DELETE"); [reflexivity|].
  destruct (String.eqb (toUpperCase method) "POST"); [reflexivity|].
  destruct (String.eqb (toUpperCase method) "PUT"); [reflexivity|].
  destruct (String.eqb (toUpperCase method) "PATCH"); [reflexivity|].
  destruct (isRequestToCollection p b); reflexivity.
Qed.

(** X9.  Synthesizing a response never fails and touches nothing but the
    identifier generator and the clock: at most one identifier is drawn,
    the clock is read at most twice, no event is recorded.  The "silent"
    action always answers 200, 201 or 204; the "empty" action may also
    answer 404. *)
Theorem synthesizers_footprint :
  forall (method : string) (body : Value) (p : string) (b : option string)
         (w : World),
    (exists res w',
        buildSilentResponse method body p b w = (Normal res, w') /\
        In res.(status) [200; 201; 204]%N /\
        w'.(trace) = w.(trace) /\ w'.(network) = w.(network) /\
        w'.(uuids) = w.(uuids) /\ w'.(clock) = w.(clock) /\
        w.(uuids_drawn) <= w'.(uuids_drawn) <= S w.(uuids_drawn) /\
        w.(clock_read) <= w'.(clock_read) <= S (S w.(clock_read))) /\
    (exists res w',
        buildEmptyResponse method p body b w = (Normal res, w') /\
        In res.(status) [200; 201; 204; 404]%N /\
        w'.(trace) = w.(trace) /\ w'.(network) = w.(network) /\
        w'.(uuids) = w.(uuids) /\ w'.(clock) = w.(clock) /\
        w.(uuids_drawn) <= w'.(uuids_drawn) <= S w.(uuids_drawn) /\
        w.(clock_read) <= w'.(clock_read) <= S (S w.(clock_read))).
Proof.
  intros method body p b w.
  assert (Hsilent :
    exists res w',
      buildSilentResponse method body p b w = (Normal res, w') /\
      In res.(status) [200; 201; 204]%N /\
      w'.(trace) = w.(trace) /\ w'.(network) = w.(network) /\
      w'.(uuids) = w.(uuids) /\ w'.(clock) = w.(clock) /\
      w.(uuids_drawn) <= w'.(uuids_drawn) <= S w.(uuids_drawn) /\
      w.(clock_read) <= w'.(clock_read) <= S (S w.(clock_read))).
  { unfold buildSilentResponse.
    destruct (String.eqb (toUpperCase method) "DELETE");
      [|destruct (String.eqb (toUpperCase method) "POST");
        [|destruct (String.eqb (toUpperCase method) "PUT" ||
                    String.eqb (toUpperCase method) "PATCH");
          [|destruct (isRequestToCollection p b)]]];
      run_io; do 2 eexists; (split; [reflexivity|]); simpl;
      repeat split; auto; lia. }
  split; [exact Hsilent|].
  unfold buildEmptyResponse.
  destruct (String.eqb (toUpperCase method) "DELETE").
  { run_io. do 2 eexists. split; [reflexivity|]. simpl.
    repeat split; auto; lia. }
  destruct (String.eqb (toUpperCase method) "POST" ||
            String.eqb (toUpperCase method) "PUT" ||
            String.eqb (toUpperCase method) "PATCH").
  { destruct Hsilent as (res & w' & Hrun & Hst & Hrest).
    exists res, w'. split; [exact Hrun|]. split; [|exact Hrest].
    simpl in *. intuition. }
  destruct (isRequestToCollection p b); run_io;
    do 2 eexists; (split; [reflexivity|]); simpl; repeat split; auto; lia.
Qed.

End WithRuntime.

End MethodFacts.

(* ===================================================================== *)
(** ** More about the body transformer *)
(* ===================================================================== *)

Module TransformExtras.
Import JSString Config JS Host Proxy JSONLaws Notions ValueNotions TransformFacts.

Section WithRuntime.
Context {rt : Runtime}.

(** X10.  [applyTransforms] throws in two situations only, both with the
    transform configured and a body that parses: the body is [null], or
    the first element of its [emails] array is a truthy boolean, number
    or string.  Everything else returns a text. *)
Theorem applyTransforms_throws_iff :
  forall (bodyText : string) (config : Config),
    applyTransforms bodyText config = Throw TypeError <->
    exists emailType parsed,
      configured config.(transforms).(inject_email_type) = Some emailType /\
      JSON_parse bodyText = Some parsed /\
      (parsed = JNull \/
       exists props first others,
         parsed = JObj props /\
         get_prop "emails" props = Some (JArr (first :: others)) /\
         truthy_value first = true /\ is_primitive first = true).
Proof.
  intros bodyText config. rewrite applyTransforms_unfold. split.
  - destruct (configured (inject_email_type (transforms config)))
      as [emailType|]; [|discriminate].
    destruct (JSON_parse bodyText) as [parsed|]; [|discriminate].
    intros Hthrow. exists emailType, parsed.
    split; [reflexivity|]. split; [reflexivity|].
    unfold inject in Hthrow.
    destruct parsed as [| b | n | s | items | props]; simpl in Hthrow;
      try discriminate; [now left|].
    right.
    destruct (get_prop "emails" props) as [emails|] eqn:Hemails;
      [|discriminate].
    destruct emails as [| b | n | s | [|first others] | ps]; try discriminate.
    destruct (truthy_value first) eqn:Htruthy; [|discriminate].
    exists props, first, others. repeat split; auto.
    destruct first as [| b | n | s | items | fs]; simpl in *;
      try reflexivity; try discriminate.
    destruct (negb (truthy_read (get_prop "type" fs))); discriminate.
  - intros (emailType & parsed & -> & -> & Hcase).
    destruct Hcase as [-> | (props & first & others & -> & Hemails & Htruthy & Hprim)];
      [reflexivity|].
    unfold inject. simpl. rewrite Hemails, Htruthy.
    destruct first; simpl in *; try discriminate; reflexivity.
Qed.

Section Readback.
Context {laws : Lawful rt}.

(** X11.  When the first email is an object without a truthy [type], the
    text [applyTransforms] returns parses again, and what it parses to is
    the body read back with [emails[0].type] equal to the configured
    type: the other properties of the first email, the other emails and
    the other top-level properties are those of the input. *)
Theorem injected_type_reads_back :
  forall (bodyText : string) (config : Config) (emailType : string)
         (props fs : Props) (others : list Value),
    configured config.(transforms).(inject_email_type) = Some emailType ->
    JSON_parse bodyText = Some (JObj props) ->
    get_prop "emails" props = Some (JArr (JObj fs :: others)) ->
    truthy_read (get_prop "type" fs) = false ->
    exists out props' fs',
      applyTransforms bodyText config = Normal out /\
      JSON_parse out = Some (JObj props') /\
      get_prop "emails" props' = Some (JArr (JObj fs' :: map reparse others)) /\
      get_prop "type" fs' = Some (JStr emailType) /\
      (forall k, k <> "type" ->
                 get_prop k fs' = option_map reparse (get_prop k fs)) /\
      (forall k, k <> "emails" ->
                 get_prop k props' = option_map reparse (get_prop k props)).
Proof.
  intros bodyText config emailType props fs others Hcfg Hparse Hemails Htype.
  pose proof (parse_wf _ _ Hparse) as Hwf.
  pose proof (wf_injected emailType _ _ _ Hwf Hemails) as Hwf'.
  eexists _, _, _. split; [|split; [|split; [|split; [|split]]]].
  - rewrite applyTransforms_unfold, Hcfg, Hparse.
    unfold inject. simpl. rewrite Hemails. simpl. rewrite Htype. simpl.
    reflexivity.
  - rewrite (parse_stringify _ Hwf'). simpl. reflexivity.
  - rewrite get_prop_map.
    rewrite PropsFacts.get_replace_same
      by (unfold has_prop; now rewrite Hemails).
    reflexivity.
  - rewrite get_prop_map, PropsFacts.get_set_same. reflexivity.
  - intros k Hk. rewrite get_prop_map.
    now rewrite PropsFacts.get_set_other by congruence.
  - intros k Hk. rewrite get_prop_map.
    now rewrite PropsFacts.get_replace_other by congruence.
Qed.

End Readback.

End WithRuntime.

End TransformExtras.

(* ===================================================================== *)
(** ** More about the forwarder *)
(* ===================================================================== *)

Module ForwardExtras.
Import JSString Config JS Host Proxy Notions PathNotions HeaderNotions SynthFacts.

Lemma same_name_trans (a b c : string) :
  same_name a b = true -> same_name b c = true -> same_name a c = true.
Proof.
  unfold same_name. rewrite !String.eqb_eq. congruence.
Qed.

Lemma same_name_sym (a b : string) : same_name a b = same_name b a.
Proof. unfold same_name. apply String.eqb_sym. Qed.

Lemma named_delete (name d : string) (h : Headers) :
  named name (headers_delete d h) =
  if same_name d name then [] else named name h.
Proof.
  unfold named, headers_delete.
  induction h as [|[n v] h IH]; simpl; [now destruct (same_name d name)|].
  destruct (same_name n d) eqn:Hnd; simpl.
  - rewrite IH. destruct (same_name d name) eqn:Hdn; [reflexivity|].
    destruct (same_name n name) eqn:Hnn; [|reflexivity].
    rewrite same_name_sym in Hnd.
    now rewrite (same_name_trans _ _ _ Hnd Hnn) in Hdn.
  - rewrite IH. destruct (same_name n name) eqn:Hnn; [|reflexivity].
    destruct (same_name d name) eqn:Hdn; [|reflexivity].
    rewrite same_name_sym in Hdn.
    now rewrite (same_name_trans _ _ _ Hnn Hdn) in Hnd.
Qed.

Lemma named_set (name k v : string) (h : Headers) :
  named name (headers_set k v h) =
  if same_name k name then [(k, v)] else named name h.
Proof.
  unfold headers_set, named. rewrite filter_app. fold (named name (headers_delete k h)).
  rewrite named_delete. simpl. destruct (same_name k name); [reflexivity|].
  apply List.app_nil_r.
Qed.

Lemma stripTrailingSlash_added (u : string) : stripTrailingSlash (u ++ "/") = u.
Proof.
  induction u as [|c u IH]; [reflexivity|].
  simpl. rewrite IH. destruct u; reflexivity.
Qed.

Lemma stripTrailingSlash_none (u : string) :
  ends_with_slash u = false -> stripTrailingSlash u = u.
Proof.
  induction u as [|c u IH]; [reflexivity|].
  simpl. destruct u as [|d u].
  - intros ->. reflexivity.
  - intros H. now rewrite IH.
Qed.

Section WithRuntime.
Context {rt : Runtime}.

Lemma outbound_headers (h : Headers) (bearer : option string) :
  let out :=
    match configured bearer with
    | Some token =>
        headers_set "Authorization" ("Bearer " ++ token)
                    (headers_delete "connection" (headers_delete "host" h))
    | None => headers_delete "connection" (headers_delete "host" h)
    end in
  named "host" out = [] /\
  named "connection" out = [] /\
  (forall token,
      configured bearer = Some token ->
      named "authorization" out = [("Authorization", "Bearer " ++ token)]) /\
  (forall name,
      same_name "host" name = false ->
      same_name "connection" name = false ->
      (same_name "authorization" name = false \/ configured bearer = None) ->
      named name out = named name h).
Proof.
  destruct (configured bearer) as [tok|]; cbv zeta;
    rewrite ?named_set, ?named_delete; simpl.
  - split; [reflexivity|]. split; [reflexivity|]. split.
    + intros token [= <-]. reflexivity.
    + intros name Hhost Hconn [Hauth | Hnone]; [|discriminate Hnone].
      rewrite named_set, !named_delete.
      change (same_name "Authorization" name)
        with (same_name "authorization" name).
      now rewrite Hauth, Hhost, Hconn.
  - split; [reflexivity|]. split; [reflexivity|]. split.
    + intros token Htok. discriminate Htok.
    + intros name Hhost Hconn _. rewrite !named_delete.
      now rewrite Hhost, Hconn.
Qed.

(** X12.  The request sent upstream never carries a [host] or
    [connection] header, whatever their case; with a bearer token
    configured its only [Authorization] header is [Bearer <token>],
    replacing any the caller sent; every other header goes through as the
    caller sent it. *)
Theorem forwarded_headers :
  forall (req : Request) (config : Config) (bodyText : option string)
         (w : World),
  exists upreq res w',
    forwardRequest req config bodyText w = (Normal res, w') /\
    w'.(trace) = (w.(trace) ++ [EvFetch upreq])%list /\
    named "host" upreq.(up_headers) = [] /\
    named "connection" upreq.(up_headers) = [] /\
    (forall token,
        configured config.(upstream).(bearer_token) = Some token ->
        named "authorization" upreq.(up_headers)
        = [("Authorization", "Bearer " ++ token)]) /\
    (forall name,
        same_name "host" name = false ->
        same_name "connection" name = false ->
        (same_name "authorization" name = false \/
         configured config.(upstream).(bearer_token) = None) ->
        named name upreq.(up_headers) = named name req.(req_headers)).
Proof.
  intros req config bodyText w.
  pose proof (outbound_headers req.(req_headers)
                config.(upstream).(bearer_token)) as Hout.
  cbv zeta in Hout.
  unfold forwardRequest, upstreamFetch. run_io.
  match goal with
  | |- context [network w ?r] => exists r; destruct (network w r) as [up|err]
  end;
    (do 2 eexists; split; [reflexivity|]; split; [reflexivity|]; exact Hout).
Qed.

(** X13.  The upstream URL is the configured URL without one trailing
    slash, then the request path without the base path, then the query
    string; a path that is not under the base path is forwarded whole.
    The method is the caller's, the body is the text handed over (the
    request body when none is), and what the upstream answers is relayed
    unchanged. *)
Theorem forwarded_request_and_relay :
  forall (req : Request) (config : Config) (bodyText : option string)
         (w : World),
  exists upreq res w',
    forwardRequest req config bodyText w = (Normal res, w') /\
    w'.(trace) = (w.(trace) ++ [EvFetch upreq])%list /\
    upreq.(up_method) = req.(method) /\
    upreq.(up_body) = match bodyText with
                      | Some text => Some text
                      | None => req.(req_body)
                      end /\
    (forall b rest,
        configured config.(server).(base_path) = Some b ->
        req.(pathname) = b ++ rest ->
        upreq.(up_url) =
          stripTrailingSlash config.(upstream).(url) ++ rest ++ req.(search)) /\
    (configured config.(server).(base_path) = None \/
     (exists b, configured config.(server).(base_path) = Some b /\
                startsWith req.(pathname) b = false) ->
     upreq.(up_url) =
       stripTrailingSlash config.(upstream).(url) ++ req.(pathname)
         ++ req.(search)) /\
    (forall answer, w.(network) upreq = Fulfilled answer -> res = answer).
Proof.
  intros req config bodyText w.
  unfold forwardRequest, upstreamFetch. run_io.
  match goal with
  | |- context [network w ?r] => exists r; destruct (network w r) as [up|err]
  end;
    (do 2 eexists; split; [reflexivity|]; split; [reflexivity|]; simpl;
     split; [reflexivity|]; split; [reflexivity|]; split; [|split]).
  - intros b rest -> ->. now rewrite PathFacts.startsWith_append, PathFacts.slice_append.
  - intros [-> | [b [-> ->]]]; reflexivity.
  - intros answer [= <-]. now destruct up.
  - intros b rest -> ->. now rewrite PathFacts.startsWith_append, PathFacts.slice_append.
  - intros [-> | [b [-> ->]]]; reflexivity.
  - intros answer Hans. discriminate Hans.
Qed.

(** X14.  One trailing slash on the configured upstream URL makes no
    difference to what is forwarded. *)
Theorem upstream_url_trailing_slash :
  forall (u : string) (token : option string) (server : ServerConfig)
         (rules : list Rule) (transforms : TransformsConfig)
         (req : Request) (bodyText : option string) (w : World),
    ends_with_slash u = false ->
    forwardRequest req
      (mkConfig (mkUpstream (u ++ "/") token) server rules transforms)
      bodyText w
    = forwardRequest req
        (mkConfig (mkUpstream u token) server rules transforms) bodyText w.
Proof.
  intros u token server rules transforms req bodyText w Hend.
  unfold forwardRequest. simpl.
  now rewrite stripTrailingSlash_added, (stripTrailingSlash_none _ Hend).
Qed.

End WithRuntime.

End ForwardExtras.

(* ===================================================================== *)
(** ** More about the request handler *)
(* ===================================================================== *)

Module HandlerExtras.
Import JSString Config JS Host Proxy Index Notions HandlerNotions SynthFacts.

Section WithRuntime.
Context {rt : Runtime}.

(** The handler on a request no rule matches. *)
Lemma fetch_unmatched (config : Config) (req : Request) (w : World) :
  matched config req = None ->
  fetch config req w =
  match transformed config req with
  | Normal body =>
      forwardRequest req config body
        (logged w (request_log req ++ transform_log req ++
                   [EvLog LogProxy req.(method) req.(pathname);
                    EvForwardRequest body])%list)
  | Throw e => (Throw e, logged w (request_log req ++ transform_log req)%list)
  end.
Proof.
  intros Hnone. unfold matched in Hnone.
  unfold fetch, transformed, request_log, transform_log, logged.
  destruct (req_body req) as [text|]; run_io; rewrite Hnone.
  - destruct (truthy text); run_io.
    + destruct (applyTransforms text config) as [text'|e]; simpl.
      * now rewrite <- !List.app_assoc.
      * now rewrite <- !List.app_assoc.
    + now rewrite <- !List.app_assoc.
  - now rewrite <- !List.app_assoc.
Qed.

Lemma fetch_matched_trace (config : Config) (req : Request) (rule : Rule)
      (w : World) :
  matched config req = Some rule ->
  exists res w',
    fetch config req w = (Normal res, w') /\
    w'.(trace) = (w.(trace) ++ matched_logs req rule)%list.
Proof.
  intros Hmatch. rewrite (HandlerFacts.fetch_matched _ _ _ w Hmatch).
  destruct (action rule).
  - eauto.
  - apply HandlerFacts.buildSilentResponse_keeps_trace.
  - apply HandlerFacts.buildEmptyResponse_keeps_trace.
Qed.

Lemma forwardRequest_run (req : Request) (config : Config)
      (body : option string) (w : World) :
  exists upreq res,
    forwardRequest req config body w =
      (Normal res, logged w [EvFetch upreq]) /\
    upreq.(up_body) = match body with
                      | Some text => Some text
                      | None => req.(req_body)
                      end /\
    (forall answer, w.(network) upreq = Fulfilled answer -> res = answer) /\
    (forall err, w.(network) upreq = Rejected err -> res.(status) = 502%N).
Proof.
  unfold forwardRequest, upstreamFetch, logged. run_io.
  match goal with
  | |- context [network w ?r] => exists r; destruct (network w r) as [up|err]
  end; eexists; (split; [reflexivity|]); (split; [reflexivity|]); split.
  - intros answer [= <-]. now destruct up.
  - discriminate.
  - discriminate.
  - reflexivity.
Qed.

Lemma fetch_count_app (es es' : list Event) :
  fetch_count (es ++ es')%list = fetch_count es + fetch_count es'.
Proof. unfold fetch_count. now rewrite filter_app, length_app. Qed.

Lemma fetch_count_logs (es : list Event) :
  Forall is_log es -> fetch_count es = 0.
Proof.
  unfold fetch_count. induction 1 as [|e es He _ IH]; [reflexivity|].
  simpl. destruct e; simpl in *; try contradiction. exact IH.
Qed.

Lemma fetch_count_before_forward (req : Request) :
  fetch_count (request_log req ++ transform_log req)%list = 0.
Proof.
  unfold request_log, transform_log.
  destruct (req_body req) as [text|]; [destruct (truthy text)|]; reflexivity.
Qed.

(** X15.  Handling a request contacts the upstream at most once, and
    exactly once precisely when no rule matches the request and the body
    transformation does not throw. *)
Theorem upstream_contacted_at_most_once :
  forall (config : Config) (req : Request) (w : World),
  exists es,
    (snd (fetch config req w)).(trace) = (w.(trace) ++ es)%list /\
    fetch_count es <= 1 /\
    (fetch_count es = 1 <->
     matched config req = None /\
     exists body, transformed config req = Normal body).
Proof.
  intros config req w.
  destruct (matched config req) as [rule|] eqn:Hmatch.
  - destruct (fetch_matched_trace _ _ _ w Hmatch) as (res & w' & Hrun & Htrace).
    exists (matched_logs req rule). rewrite Hrun. simpl.
    split; [exact Htrace|].
    rewrite (fetch_count_logs _ (HandlerFacts.matched_logs_are_logs req rule)).
    split; [lia|].
    split; [discriminate | intros [Hnone _]; discriminate].
  - rewrite (fetch_unmatched _ _ w Hmatch).
    destruct (transformed config req) as [body|e].
    + destruct (forwardRequest_run req config body
                  (logged w (request_log req ++ transform_log req ++
                             [EvLog LogProxy req.(method) req.(pathname);
                              EvForwardRequest body])%list))
        as (upreq & res & Hrun & _).
      rewrite Hrun. simpl.
      exists ((request_log req ++ transform_log req ++
               [EvLog LogProxy req.(method) req.(pathname);
                EvForwardRequest body]) ++ [EvFetch upreq])%list.
      split; [symmetry; apply List.app_assoc|].
      rewrite fetch_count_app, (List.app_assoc (request_log req)),
        fetch_count_app, fetch_count_before_forward.
      unfold fetch_count. simpl. split; [lia|]. split; [eauto | reflexivity].
    + simpl. exists (request_log req ++ transform_log req)%list.
      split; [reflexivity|]. rewrite fetch_count_before_forward.
      split; [lia|]. split; [discriminate|].
      intros [_ [body Hbody]]. discriminate Hbody.
Qed.

(** X16.  A request no rule matches, whose body transformation does not
    throw, is forwarded exactly once with the transformed body: the
    upstream's answer is returned unchanged, and a failed upstream call
    is answered 502. *)
Theorem unmatched_request_is_forwarded :
  forall (config : Config) (req : Request) (w : World) (body : option string),
    matched config req = None ->
    transformed config req = Normal body ->
    exists upreq res w',
      fetch config req w = (Normal res, w') /\
      w'.(trace) =
        (w.(trace) ++ request_log req ++ transform_log req ++
           [EvLog LogProxy req.(method) req.(pathname);
            EvForwardRequest body; EvFetch upreq])%list /\
      upreq.(up_body) = body /\
      (forall answer, w.(network) upreq = Fulfilled answer -> res = answer) /\
      (forall err, w.(network) upreq = Rejected err -> res.(status) = 502%N).
Proof.
  intros config req w body Hnone Hbody.
  rewrite (fetch_unmatched _ _ w Hnone), Hbody.
  destruct (forwardRequest_run req config body
              (logged w (request_log req ++ transform_log req ++
                         [EvLog LogProxy req.(method) req.(pathname);
                          EvForwardRequest body])%list))
    as (upreq & res & Hrun & Hup & Hok & Hfail).
  exists upreq, res. eexists. split; [exact Hrun|]. split; [|split].
  - simpl. now rewrite <- !List.app_assoc.
  - rewrite Hup. destruct body as [text|]; [reflexivity|].
    unfold transformed in Hbody.
    destruct (req_body req) as [text|]; [|reflexivity].
    destruct (truthy text); [|discriminate Hbody].
    destruct (applyTransforms text config); discriminate Hbody.
  - split; [exact Hok | exact Hfail].
Qed.

(** X17.  When the transformation of a non-empty body throws, the
    handler throws with it: no response is produced and the upstream is
    not contacted. *)
Theorem transform_failure_fails_the_request :
  forall (config : Config) (req : Request) (w : World) (text : string),
    matched config req = None ->
    req.(req_body) = Some text ->
    text <> "" ->
    applyTransforms text config = Throw TypeError ->
    exists w',
      fetch config req w = (Throw TypeError, w') /\
      w'.(trace) =
        (w.(trace) ++ [EvLog LogRequest req.(method) req.(pathname);
                       EvApplyTransforms text])%list.
Proof.
  intros config req w text Hnone Hbody Hne Hthrow.
  assert (Htruthy : truthy text = true)
    by (destruct text; [contradiction | reflexivity]).
  rewrite (fetch_unmatched _ _ w Hnone).
  unfold transformed, request_log, transform_log.
  rewrite Hbody, Htruthy, Hthrow. simpl. eauto.
Qed.

(** X18.  A write voided by the "silent" or the "empty" action whose body
    brings no property to echo (no body, an empty or unreadable text, a
    JSON scalar, an empty object or array) is still answered as a
    success: for POST, 201 with a stub made of the schemas tag, a fresh
    id and the meta block, in this order. *)
Theorem voided_POST_without_properties :
  forall (config : Config) (req : Request) (rule : Rule) (w : World),
    matched config req = Some rule ->
    rule.(action) <> Reject ->
    toUpperCase req.(method) = "POST" ->
    spreadable (parseBody req.(req_body)) = [] ->
    exists res w',
      fetch config req w = (Normal res, w') /\
      res.(status) = 201%N /\
      res.(Host.body) =
        Some (JSON_stringify
                (JObj [("schemas",
                        JArr [JStr "urn:ietf:params:scim:schemas:core:2.0:User"]);
                       ("id", JStr (w.(uuids) w.(uuids_drawn)));
                       ("meta",
                        JObj [("resourceType", JStr "User");
                              ("created", JStr (w.(clock) w.(clock_read)));
                              ("lastModified",
                               JStr (w.(clock) (S w.(clock_read))));
                              ("location", JStr "")])])).
Proof.
  intros config req rule w Hmatch Haction Hpost Hnothing.
  rewrite (HandlerFacts.fetch_matched _ _ _ w Hmatch).
  destruct (action rule); [contradiction | |];
    unfold buildEmptyResponse, buildSilentResponse, stubObject;
    rewrite Hpost, Hnothing; simpl; run_io; eauto.
Qed.

End WithRuntime.

End HandlerExtras.

(* ===================================================================== *)
(** ** Facts about the configuration loader *)
(* ===================================================================== *)

Module LoaderFacts.
Import JSString Config JS ConfigLoader LoaderNotions.
Local Open Scope list_scope.

Lemma upperMethods_strings (ss : list string) :
  upperMethods (map TString ss) = Loaded (map toUpperCase ss).
Proof.
  induction ss as [|s ss IH]; simpl; [reflexivity|].
  now rewrite IH.
Qed.

Lemma upperMethods_loaded (ms : list Toml) (l : list string) :
  upperMethods ms = Loaded l ->
  exists ss, ms = map TString ss /\ l = map toUpperCase ss.
Proof.
  revert l. induction ms as [|m ms IH]; intros l H; simpl in H.
  - exists []. split; [reflexivity|]. now inversion H.
  - destruct m as [s| | | |]; try discriminate.
    destruct (upperMethods ms) as [l'| | |] eqn:E; try discriminate.
    simpl in H. inversion H; subst.
    destruct (IH l' eq_refl) as [ss [-> ->]].
    now exists (s :: ss).
Qed.

Lemma all_strings_map (ms : list Toml) :
  all_strings ms = true -> exists ss, ms = map TString ss.
Proof.
  induction ms as [|m ms IH]; intros H.
  - now exists [].
  - destruct m as [s| | | |]; try discriminate.
    destruct (IH H) as [ss ->]. now exists (s :: ss).
Qed.

Lemma upperMethods_not_strings (ms : list Toml) :
  all_strings ms = false -> upperMethods ms = LoadTypeError.
Proof.
  induction ms as [|m ms IH]; intros H; [discriminate|].
  destruct m as [s| | | |]; try reflexivity.
  simpl in *. now rewrite (IH H).
Qed.

Lemma is_action_name (a : Toml) :
  is_action a = true -> exists act, a = TString (action_name act).
Proof.
  destruct a as [s| | | |]; try discriminate. simpl.
  rewrite !orb_true_iff, !String.eqb_eq.
  intros [[-> | ->] | ->]; [exists Reject | exists Silent | exists Empty];
    reflexivity.
Qed.

(** What loads is what the file says. *)
Lemma loadRule_loaded (i : N) (r : Toml) (rule : Rule) :
  loadRule i r = Loaded rule -> rule_of_file r rule.
Proof.
  unfold loadRule, rule_of_file.
  destruct (toml_get r "resource") as [[res| | | |]|]; try discriminate.
  intros H.
  assert (Hact : exists act,
             match toml_get r "action" with
             | Some a => a = TString (action_name act)
             | None => act = Reject
             end /\
             bindL (match match toml_get r "methods" with
                          | Some ms => ms
                          | None => TArray [TString "*"]
                          end with
                    | TArray ms => upperMethods ms
                    | _ => LoadTypeError
                    end)
                   (fun methods => Loaded (mkRule res methods act))
             = Loaded rule).
  { destruct (toml_get r "action") as [[a| | | |]|]; try discriminate.
    - destruct (String.eqb a "reject") eqn:E1.
      + apply String.eqb_eq in E1. subst a. now exists Reject.
      + destruct (String.eqb a "silent") eqn:E2.
        * apply String.eqb_eq in E2. subst a. now exists Silent.
        * destruct (String.eqb a "empty") eqn:E3; [|discriminate].
          apply String.eqb_eq in E3. subst a. now exists Empty.
    - now exists Reject. }
  clear H. destruct Hact as [act [Hact H]].
  destruct (toml_get r "methods") as [m|].
  - destruct m as [| | |ms|]; try discriminate.
    destruct (upperMethods ms) as [l| | |] eqn:E; try discriminate.
    simpl in H. inversion H; subst; simpl.
    destruct (upperMethods_loaded _ _ E) as [ss [-> ->]].
    split; [reflexivity|]. split; [now exists ss|].
    destruct (toml_get r "action"); assumption.
  - simpl in H. inversion H; subst; simpl.
    split; [reflexivity|]. split; [reflexivity|].
    destruct (toml_get r "action"); assumption.
Qed.

(** An entry without a string for a resource is refused under its
    index. *)
Lemma loadRule_no_resource (i : N) (r : Toml) :
  (forall s, toml_get r "resource" <> Some (TString s)) ->
  loadRule i r = ConfigError (resourceRequired i).
Proof.
  intros H. unfold loadRule.
  destruct (toml_get r "resource") as [[s| | | |]|]; try reflexivity.
  now destruct (H s).
Qed.

(** An entry with an unknown action is refused under its index, before
    its methods are looked at. *)
Lemma loadRule_bad_action (i : N) (r a : Toml) (s : string) :
  toml_get r "resource" = Some (TString s) ->
  toml_get r "action" = Some a ->
  is_action a = false ->
  loadRule i r = ConfigError (actionInvalid i).
Proof.
  intros Hres Hact Hbad. unfold loadRule. rewrite Hres, Hact.
  destruct a as [w| | | |]; try reflexivity.
  simpl in Hbad. rewrite !orb_false_iff in Hbad.
  destruct Hbad as [[-> ->] ->]. reflexivity.
Qed.

Lemma loadRule_action_passes (i : N) (r : Toml) :
  match toml_get r "action" with
  | Some a => is_action a
  | None => true
  end = true ->
  exists act,
    match match toml_get r "action" with
          | Some a => a
          | None => TString "reject"
          end with
    | TString a =>
        if String.eqb a "reject" then Loaded Reject
        else if String.eqb a "silent" then Loaded Silent
        else if String.eqb a "empty" then Loaded Empty
        else ConfigError (actionInvalid i)
    | _ => ConfigError (actionInvalid i)
    end = Loaded act.
Proof.
  destruct (toml_get r "action") as [a|]; [|now exists Reject].
  intros H. destruct (is_action_name _ H) as [[] ->]; simpl; eauto.
Qed.

(** An entry whose methods are no array of strings makes the engine
    throw. *)
Lemma loadRule_bad_methods (i : N) (r m : Toml) (s : string) :
  toml_get r "resource" = Some (TString s) ->
  match toml_get r "action" with
  | Some a => is_action a
  | None => true
  end = true ->
  toml_get r "methods" = Some m ->
  is_string_array m = false ->
  loadRule i r = LoadTypeError.
Proof.
  intros Hres Hact Hm Hbad.
  destruct (loadRule_action_passes i r Hact) as [act Hact'].
  unfold loadRule. rewrite Hres, Hact', Hm. simpl.
  destruct m as [| | |ms|]; try reflexivity.
  simpl in Hbad. now rewrite (upperMethods_not_strings _ Hbad).
Qed.

Lemma loadRule_well_formed (i : N) (r : Toml) :
  well_formed_rule r = true -> exists rule, loadRule i r = Loaded rule.
Proof.
  unfold well_formed_rule.
  destruct (toml_get r "resource") as [[s| | | |]|] eqn:Hres; try discriminate.
  rewrite andb_true_iff. intros [Hm Hact].
  destruct (loadRule_action_passes i r Hact) as [act Hact'].
  unfold loadRule. rewrite Hres, Hact'. simpl.
  destruct (toml_get r "methods") as [m|]; [|simpl; eauto].
  destruct m as [| | |ms|]; try discriminate.
  simpl in Hm. destruct (all_strings_map _ Hm) as [ss ->].
  rewrite upperMethods_strings. simpl. eauto.
Qed.

Lemma loadRules_well_formed (rs : list Toml) :
  forall i, forallb well_formed_rule rs = true ->
            exists rules, loadRules i rs = Loaded rules.
Proof.
  induction rs as [|r rs IH]; intros i H; simpl in *; [eauto|].
  apply andb_true_iff in H. destruct H as [Hr Hrs].
  destruct (loadRule_well_formed i r Hr) as [rule ->].
  destruct (IH (N.succ i) Hrs) as [rules ->].
  simpl. eauto.
Qed.

(** The first entry that fails ends the loading with its own failure,
    under its own index. *)
Lemma loadRules_first_failure (good : list Toml) (bad : Toml) (rest : list Toml) :
  forall i, forallb well_formed_rule good = true ->
            (forall rule,
                loadRule (i + N.of_nat (List.length good)) bad <> Loaded rule) ->
            loadRules i (good ++ bad :: rest)
            = bindL (loadRule (i + N.of_nat (List.length good)) bad)
                    (fun _ => Loaded []).
Proof.
  induction good as [|r good IH]; intros i Hgood Hbad; simpl in *.
  - rewrite N.add_0_r in *.
    destruct (loadRule i bad) as [rule| | |]; try reflexivity.
    now destruct (Hbad rule).
  - apply andb_true_iff in Hgood. destruct Hgood as [Hr Hgood].
    destruct (loadRule_well_formed i r Hr) as [rule ->]. simpl.
    replace (i + N.pos (Pos.of_succ_nat (List.length good)))%N
      with (N.succ i + N.of_nat (List.length good))%N in * by lia.
    rewrite (IH (N.succ i) Hgood Hbad).
    destruct (loadRule (N.succ i + N.of_nat (List.length good)) bad) as [a| | |];
      [now destruct (Hbad a) | reflexivity | reflexivity | reflexivity].
Qed.

Lemma upstream_url_get (raw : Toml) (u : string) :
  upstream_url raw = Some u ->
  exists up, toml_get raw "upstream" = Some up /\
             toml_get up "url" = Some (TString u).
Proof.
  unfold upstream_url.
  destruct (toml_get raw "upstream") as [up|]; [|discriminate].
  destruct (toml_get up "url") as [[s| | | |]|] eqn:Hurl; try discriminate.
  intros H. inversion H; subst. exists up. split; [reflexivity | exact Hurl].
Qed.

(** With an upstream url, a failure of the rules is the failure of the
    loader. *)
Lemma loadConfig_rules_failure (raw : Toml) (u : string) (rs : list Toml) :
  upstream_url raw = Some u ->
  toml_get raw "rules" = Some (TArray rs) ->
  (forall rules, loadRules 0 rs <> Loaded rules) ->
  loadConfig raw = bindL (loadRules 0 rs) (fun _ => Loaded
                     (mkConfig (mkUpstream u None) (mkServer 0 None) []
                               (mkTransforms None))).
Proof.
  intros Hu Hrules Hfail.
  destruct (upstream_url_get _ _ Hu) as [up [Hup Hurl]].
  unfold loadConfig. rewrite Hup, Hurl, Hrules.
  destruct (loadRules 0 rs) as [rules| | |]; try reflexivity.
  now destruct (Hfail rules).
Qed.

Lemma loadConfig_bad_rule (raw : Toml) (u : string)
      (good : list Toml) (bad : Toml) (rest : list Toml) :
  upstream_url raw = Some u ->
  toml_get raw "rules" = Some (TArray (good ++ bad :: rest)) ->
  forallb well_formed_rule good = true ->
  (forall rule, loadRule (N.of_nat (List.length good)) bad <> Loaded rule) ->
  loadConfig raw
  = bindL (loadRule (N.of_nat (List.length good)) bad)
          (fun _ => Loaded (mkConfig (mkUpstream u None) (mkServer 0 None) []
                                     (mkTransforms None))).
Proof.
  intros Hu Hrules Hgood Hbad.
  assert (H := loadRules_first_failure good bad rest 0%N Hgood).
  rewrite N.add_0_l in H. specialize (H Hbad).
  rewrite (loadConfig_rules_failure raw u _ Hu Hrules).
  - rewrite H. destruct (loadRule (N.of_nat (List.length good)) bad);
      reflexivity.
  - intros rules. rewrite H.
    destruct (loadRule (N.of_nat (List.length good)) bad) as [rule| | |];
      try discriminate.
    now destruct (Hbad rule).
Qed.

(** A configuration that loads has the upstream url of the file, and
    its rules are what the entries of the file load to. *)
Lemma loadConfig_loaded (raw : Toml) (cfg : Config) :
  loadConfig raw = Loaded cfg ->
  upstream_url raw = Some (url (upstream cfg)) /\
  loadRules 0 (file_rules raw) = Loaded (rules cfg).
Proof.
  intros H. unfold loadConfig, upstream_url, file_rules in *.
  destruct (toml_get raw "upstream") as [up|]; [|discriminate].
  destruct (toml_get up "url") as [[u| | | |]|]; try discriminate.
  assert (Hrules : exists rules,
             match toml_get raw "rules" with
             | Some (TArray rawRules) => loadRules 0 rawRules
             | Some _ => LoadTypeError
             | None => Loaded []
             end = Loaded rules).
  { destruct (match toml_get raw "rules" with
              | Some (TArray rawRules) => loadRules 0 rawRules
              | Some _ => LoadTypeError
              | None => Loaded []
              end) as [rules| | |]; try discriminate. eauto. }
  destruct Hrules as [rules Hrules]. rewrite Hrules in H. simpl in H.
  destruct (asOptionalString (toml_get up "bearer_token")); try discriminate.
  simpl in H.
  destruct (portOf _); try discriminate. simpl in H.
  destruct (asOptionalString _); try discriminate. simpl in H.
  destruct (asOptionalString _); try discriminate. simpl in H.
  inversion H; subst; simpl. split; [reflexivity|].
  destruct (toml_get raw "rules") as [[| | |rs|]|]; try discriminate;
    exact Hrules.
Qed.

(** X19.  A configuration that loads is what the file says: its upstream
    url is the file's, and its rules are the entries of [rules] in the
    file, as many and in the same order, each with the resource of its
    entry, the methods of its entry in upper case (["*"] when the entry
    names none) and the action of its entry (reject when it names
    none). *)
Theorem loaded_config_follows_the_file :
  forall (raw : Toml) (cfg : Config),
    loadConfig raw = Loaded cfg ->
    upstream_url raw = Some (url (upstream cfg)) /\
    Forall2 rule_of_file (file_rules raw) (rules cfg).
Proof.
  intros raw cfg H.
  destruct (loadConfig_loaded raw cfg H) as [Hurl Hrules].
  split; [exact Hurl|].
  revert Hrules. generalize 0%N (rules cfg). clear H Hurl.
  induction (file_rules raw) as [|r rs IH]; intros i rules H; simpl in H.
  - inversion H. constructor.
  - destruct (loadRule i r) as [rule| | |] eqn:E; try discriminate.
    simpl in H.
    destruct (loadRules (N.succ i) rs) as [rules'| | |] eqn:E';
      try discriminate.
    simpl in H. inversion H; subst.
    constructor; [exact (loadRule_loaded _ _ _ E) | exact (IH _ _ E')].
Qed.

(** The methods of a rule that loads are in upper case. *)
Lemma loadRule_upper (i : N) (r : Toml) (rule : Rule) (m : string) :
  loadRule i r = Loaded rule -> In m (methods rule) -> toUpperCase m = m.
Proof.
  intros H Hm. destruct (loadRule_loaded _ _ _ H) as [_ [Hmethods _]].
  destruct (toml_get r "methods") as [v|].
  - destruct Hmethods as [ms [_ Heq]]. rewrite Heq in Hm.
    apply in_map_iff in Hm. destruct Hm as [m0 [<- _]].
    apply MethodFacts.toUpperCase_idempotent.
  - rewrite Hmethods in Hm. destruct Hm as [<- | []]. reflexivity.
Qed.

(** X20.  Every method of every rule of a loaded configuration is in
    upper case: it is what the matcher compares the upper-cased method
    of a request with, so that the case the methods are written in in
    the file does not matter. *)
Theorem loaded_methods_are_upper_case :
  forall (raw : Toml) (cfg : Config) (rule : Rule) (m : string),
    loadConfig raw = Loaded cfg ->
    In rule (rules cfg) ->
    In m (methods rule) ->
    toUpperCase m = m.
Proof.
  intros raw cfg rule m H Hrule Hm.
  destruct (loadConfig_loaded raw cfg H) as [_ Hrules].
  revert Hrules Hrule. generalize 0%N (rules cfg). clear H.
  induction (file_rules raw) as [|r rs IH]; intros i rules H Hrule;
    simpl in H.
  - inversion H; subst. contradiction.
  - destruct (loadRule i r) as [rule'| | |] eqn:E; try discriminate.
    simpl in H.
    destruct (loadRules (N.succ i) rs) as [rules'| | |] eqn:E';
      try discriminate.
    simpl in H. inversion H; subst.
    destruct Hrule as [-> | Hrule].
    + exact (loadRule_upper _ _ _ _ E Hm).
    + exact (IH _ _ E' Hrule).
Qed.

Lemma upperMethods_no_config_error (ms : list Toml) (message : string) :
  upperMethods ms <> ConfigError message.
Proof.
  induction ms as [|m ms IH]; simpl; [discriminate|].
  destruct m as [s| | | |]; try discriminate.
  destruct (upperMethods ms) as [l| | |]; simpl; try discriminate.
  intros H. apply IH. exact H.
Qed.

(** The loader's own errors about a rule carry the index of the rule. *)
Lemma loadRule_error (i : N) (r : Toml) (message : string) :
  loadRule i r = ConfigError message ->
  message = resourceRequired i \/ message = actionInvalid i.
Proof.
  unfold loadRule.
  destruct (toml_get r "resource") as [[res| | | |]|];
    try (intros H; inversion H; now left).
  set (act := match match toml_get r "action" with
                    | Some a => a
                    | None => TString "reject"
                    end with
              | TString a =>
                  if String.eqb a "reject" then Loaded Reject
                  else if String.eqb a "silent" then Loaded Silent
                  else if String.eqb a "empty" then Loaded Empty
                  else ConfigError (actionInvalid i)
              | _ => ConfigError (actionInvalid i)
              end).
  assert (Hact : (exists a, act = Loaded a) \/ act = ConfigError (actionInvalid i)).
  { unfold act.
    destruct (toml_get r "action") as [[a| | | |]|];
      try (right; reflexivity); try (left; eexists; reflexivity).
    destruct (String.eqb a "reject"); [left; eexists; reflexivity|].
    destruct (String.eqb a "silent"); [left; eexists; reflexivity|].
    destruct (String.eqb a "empty"); [left; eexists; reflexivity|].
    right; reflexivity. }
  destruct Hact as [[a ->] | ->]; simpl.
  - destruct (toml_get r "methods") as [[| | |ms|]|]; simpl; try discriminate.
    destruct (upperMethods ms) as [l| | |] eqn:E; simpl; try discriminate.
    now destruct (upperMethods_no_config_error ms message0).
  - intros H. inversion H. now right.
Qed.

Lemma loadRules_error (rs : list Toml) :
  forall i message,
    loadRules i rs = ConfigError message ->
    exists j, message = resourceRequired j \/ message = actionInvalid j.
Proof.
  induction rs as [|r rs IH]; intros i message H; simpl in H; [discriminate|].
  destruct (loadRule i r) as [rule| | |] eqn:E; simpl in H; try discriminate.
  - destruct (loadRules (N.succ i) rs) as [rules| | |] eqn:E';
      simpl in H; try discriminate.
    inversion H; subst. exact (IH _ _ E').
  - inversion H; subst. exists i. exact (loadRule_error _ _ _ E).
Qed.

Lemma rule_errors_differ (j : N) :
  resourceRequired j <> upstreamRequired /\ actionInvalid j <> upstreamRequired.
Proof.
  split; unfold resourceRequired, actionInvalid, upstreamRequired; simpl;
    intros H; inversion H.
Qed.

Lemma asOptionalString_cases (v : option Toml) :
  (exists s, asOptionalString v = Loaded s) \/ asOptionalString v = NotAConfig.
Proof.
  destruct v as [[s| | | |]|]; simpl; eauto.
Qed.

Lemma portOf_cases (v : option Toml) :
  (exists p, portOf v = Loaded p) \/ portOf v = NotAConfig.
Proof.
  destruct v as [[|z| | |]|]; simpl; eauto.
  destruct ((0 <=? z) && (z <=? MAX_SAFE_INTEGER))%Z; eauto.
Qed.

(** Once the rules are loaded, no error is thrown any more. *)
Lemma loadConfig_tail_no_error (token port base inject : option Toml)
      (k : option string -> N -> option string -> option string -> Config)
      (message : string) :
  bindL (asOptionalString token) (fun t =>
  bindL (portOf port) (fun p =>
  bindL (asOptionalString base) (fun b =>
  bindL (asOptionalString inject) (fun i => Loaded (k t p b i)))))
  = ConfigError message -> False.
Proof.
  destruct (asOptionalString_cases token) as [[t ->] | ->]; simpl;
    [|discriminate].
  destruct (portOf_cases port) as [[p ->] | ->]; simpl; [|discriminate].
  destruct (asOptionalString_cases base) as [[b ->] | ->]; simpl;
    [|discriminate].
  destruct (asOptionalString_cases inject) as [[i ->] | ->]; simpl;
    discriminate.
Qed.

(** X21.  The error "Config: [upstream] url is required" is thrown
    exactly when the file has no [upstream] whose [url] is a string,
    whatever else is wrong with the file. *)
Theorem upstream_url_is_checked_first :
  forall (raw : Toml),
    loadConfig raw = ConfigError upstreamRequired <-> upstream_url raw = None.
Proof.
  intros raw. unfold loadConfig, upstream_url.
  destruct (toml_get raw "upstream") as [up|]; [|tauto].
  destruct (toml_get up "url") as [[u| | | |]|]; try tauto.
  split; [|discriminate]. intros H. exfalso.
  destruct (toml_get raw "rules") as [[| | |rs|]|]; simpl in H;
    try discriminate.
  - destruct (loadRules 0 rs) as [rules| | |] eqn:E; simpl in H;
      try discriminate.
    + now apply (loadConfig_tail_no_error _ _ _ _ _ _ H).
    + inversion H; subst.
      destruct (loadRules_error _ _ _ E) as [j [Hj | Hj]];
        [exact (proj1 (rule_errors_differ j) (eq_sym Hj))
        |exact (proj2 (rule_errors_differ j) (eq_sym Hj))].
  - now apply (loadConfig_tail_no_error _ _ _ _ _ _ H).
Qed.

(** X22.  A rule the loader refuses is named by its index: when the
    entries before it are fine, an entry without a string for a resource
    gives "Config: rules[i] resource is required" and an entry with a
    resource and an action other than the three words gives
    "Config: rules[i] action must be ...", with [i] the position of the
    entry counted from 0; the entries behind it and the methods of the
    entry play no part. *)
Theorem rule_errors_name_the_first_bad_rule :
  forall (raw : Toml) (u : string) (good : list Toml) (bad : Toml)
         (rest : list Toml),
    upstream_url raw = Some u ->
    toml_get raw "rules" = Some (TArray (good ++ bad :: rest)) ->
    forallb well_formed_rule good = true ->
    ((forall s, toml_get bad "resource" <> Some (TString s)) ->
     loadConfig raw
     = ConfigError (resourceRequired (N.of_nat (List.length good)))) /\
    (forall s a,
        toml_get bad "resource" = Some (TString s) ->
        toml_get bad "action" = Some a ->
        is_action a = false ->
        loadConfig raw
        = ConfigError (actionInvalid (N.of_nat (List.length good)))).
Proof.
  intros raw u good bad rest Hu Hrules Hgood. split.
  - intros Hres.
    assert (E := loadRule_no_resource (N.of_nat (List.length good)) bad Hres).
    rewrite (loadConfig_bad_rule raw u good bad rest Hu Hrules Hgood).
    + now rewrite E.
    + intros rule. rewrite E. discriminate.
  - intros s a Hres Hact Hbad.
    assert (E := loadRule_bad_action (N.of_nat (List.length good)) bad a s
                   Hres Hact Hbad).
    rewrite (loadConfig_bad_rule raw u good bad rest Hu Hrules Hgood).
    + now rewrite E.
    + intros rule. rewrite E. discriminate.
Qed.

(** X23.  A file with nothing but an upstream url loads with the
    defaults: port 8080, no base path, no bearer token, no transform and
    no rules, so that no request is matched. *)
Theorem loadConfig_defaults :
  forall (raw up : Toml) (u : string),
    toml_get raw "upstream" = Some up ->
    toml_get up "url" = Some (TString u) ->
    toml_get up "bearer_token" = None ->
    toml_get raw "server" = None ->
    toml_get raw "rules" = None ->
    toml_get raw "transforms" = None ->
    loadConfig raw
    = Loaded (mkConfig (mkUpstream u None) (mkServer 8080 None) []
                       (mkTransforms None)) /\
    forall pathname method,
      Proxy.matchRule pathname method [] None = None.
Proof.
  intros raw up u Hup Hurl Htoken Hserver Hrules Htransforms. split.
  - unfold loadConfig. rewrite Hup, Hurl, Hserver, Hrules, Htransforms, Htoken.
    reflexivity.
  - intros pathname method. unfold Proxy.matchRule.
    destruct (Proxy.extractResource pathname None) as [res|]; [|reflexivity].
    destruct (truthy res); reflexivity.
Qed.

(** X24.  Two mistakes the loader does not check for end in a
    [TypeError] of the engine instead of a "Config: ..." error: a
    [rules] that is no array, and, in a rule that is fine otherwise and
    has only fine rules before it, a [methods] that is no array of
    strings (a single string, say). *)
Theorem unchecked_casts_throw_TypeError :
  forall (raw : Toml) (u : string),
    upstream_url raw = Some u ->
    (forall v,
        toml_get raw "rules" = Some v ->
        (forall rs, v <> TArray rs) ->
        loadConfig raw = LoadTypeError) /\
    (forall good bad rest s m,
        toml_get raw "rules" = Some (TArray (good ++ bad :: rest)) ->
        forallb well_formed_rule good = true ->
        toml_get bad "resource" = Some (TString s) ->
        match toml_get bad "action" with
        | Some a => is_action a
        | None => true
        end = true ->
        toml_get bad "methods" = Some m ->
        is_string_array m = false ->
        loadConfig raw = LoadTypeError).
Proof.
  intros raw u Hu. split.
  - intros v Hrules Hv.
    destruct (upstream_url_get _ _ Hu) as [up [Hup Hurl]].
    unfold loadConfig. rewrite Hup, Hurl, Hrules.
    destruct v as [| | |rs|]; try reflexivity.
    now destruct (Hv rs).
  - intros good bad rest s m Hrules Hgood Hres Hact Hm Hbad.
    assert (E := loadRule_bad_methods (N.of_nat (List.length good)) bad m s
                   Hres Hact Hm Hbad).
    rewrite (loadConfig_bad_rule raw u good bad rest Hu Hrules Hgood).
    + now rewrite E.
    + intros rule. rewrite E. discriminate.
Qed.

End LoaderFacts.

Module LoaderExamples.
Import JSString Config JS ConfigLoader LoaderNotions LoaderSamples LoaderFacts.
Local Open Scope list_scope.

Lemma loaded_config_follows_the_file_witness :
  loadConfig document = Loaded documentConfig /\
  upstream_url document = Some "https://idp.example/scim/" /\
  Forall2 rule_of_file (file_rules document) (rules documentConfig).
Proof.
  split; [reflexivity|].
  exact (loaded_config_follows_the_file document documentConfig eq_refl).
Defined.

Lemma loaded_methods_are_upper_case_witness :
  toUpperCase "PATCH" = "PATCH".
Proof.
  apply (loaded_methods_are_upper_case document documentConfig
           (mkRule "/Users" ["DELETE"; "PATCH"] Silent) "PATCH" eq_refl).
  - right. left. reflexivity.
  - right. left. reflexivity.
Defined.

Lemma rule_errors_name_the_first_bad_rule_witness :
  loadConfig (withRules (goodRules ++ unnamedRule :: [dropRule]))
  = ConfigError "Config: rules[2] resource is required" /\
  loadConfig (withRules (goodRules ++ dropRule :: [unnamedRule]))
  = ConfigError (actionInvalid 2).
Proof.
  split.
  - apply (rule_errors_name_the_first_bad_rule
             (withRules (goodRules ++ unnamedRule :: [dropRule]))
             "https://idp.example" goodRules unnamedRule [dropRule]
             eq_refl eq_refl eq_refl).
    intros s. discriminate.
  - apply (proj2 (rule_errors_name_the_first_bad_rule
             (withRules (goodRules ++ dropRule :: [unnamedRule]))
             "https://idp.example" goodRules dropRule [unnamedRule]
             eq_refl eq_refl eq_refl) "/Bulk" (TString "drop"));
      reflexivity.
Defined.

Lemma loadConfig_defaults_witness :
  loadConfig minimal
  = Loaded (mkConfig (mkUpstream "https://idp.example" None)
                     (mkServer 8080 None) [] (mkTransforms None)).
Proof.
  apply (loadConfig_defaults minimal
           (TTable [("url", TString "https://idp.example")])
           "https://idp.example"); reflexivity.
Defined.

Lemma unchecked_casts_throw_TypeError_witness :
  loadConfig (withRules (goodRules ++ bareMethodRule :: [])) = LoadTypeError.
Proof.
  apply (proj2 (unchecked_casts_throw_TypeError
                  (withRules (goodRules ++ bareMethodRule :: []))
                  "https://idp.example" eq_refl)
               goodRules bareMethodRule [] "/Bulk" (TString "POST"));
    reflexivity.
Defined.

End LoaderExamples.

(* ===================================================================== *)
(** ** The further facts on the sample requests *)
(* ===================================================================== *)

Module CoverageExamples.
Import JSString Config JS Host Proxy Index JSONLaws Notions.
Import PathNotions MethodNotions HandlerNotions.
Local Open Scope list_scope.

(** A slash after the resource keeps the path a collection path; a
    segment after it does not. *)
Lemma collection_iff_only_slashes_follow_witness :
  isRequestToCollection "/Users/" None = true /\
  isRequestToCollection "/Users//x" None = false.
Proof.
  split.
  - apply (PathFacts.collection_iff_only_slashes_follow "Users" "/");
      [discriminate | reflexivity | reflexivity].
  - apply (PathFacts.collection_iff_only_slashes_follow "Users" "//x");
      [discriminate | reflexivity | reflexivity].
Defined.

Lemma method_case_is_irrelevant_witness :
  matchRule "/Users/abc" "delete" Samples.rules None
  = matchRule "/Users/abc" "DELETE" Samples.rules None.
Proof.
  exact (proj1 (MethodFacts.method_case_is_irrelevant
                  (rt := MiniJSON.runtime) "delete" "DELETE" eq_refl)
               "/Users/abc" Samples.rules None).
Defined.

(** HEAD on a singleton path: the stub of a GET under "silent", the 404
    of a GET under "empty". *)
Lemma other_methods_are_answered_like_GET_witness :
  buildSilentResponse (rt := MiniJSON.runtime) "HEAD" (JStr "ignored")
                      "/Users/abc" None Samples.world
  = buildSilentResponse (rt := MiniJSON.runtime) "GET" JNull
                        "/Users/abc" None Samples.world /\
  buildEmptyResponse (rt := MiniJSON.runtime) "HEAD" "/Users/abc"
                     (JStr "ignored") None Samples.world
  = buildEmptyResponse (rt := MiniJSON.runtime) "GET" "/Users/abc" JNull
                       None Samples.world.
Proof.
  exact (MethodFacts.other_methods_are_answered_like_GET
           (rt := MiniJSON.runtime) "HEAD" (JStr "ignored") JNull
           "/Users/abc" None Samples.world eq_refl).
Defined.

(** The scenario of the specification, read back. *)
Lemma injected_type_reads_back_witness :
  exists out props' fs',
    applyTransforms (rt := MiniJSON.runtime) SampleBodies.untypedEmail
                    (Samples.config None (Some "work")) = Normal out /\
    MiniJSON.parse out = Some (JObj props') /\
    get_prop "emails" props' = Some (JArr [JObj fs']) /\
    get_prop "type" fs' = Some (JStr "work").
Proof.
  destruct (TransformExtras.injected_type_reads_back
              (laws := MiniJSONFacts.runtime_lawful)
              SampleBodies.untypedEmail (Samples.config None (Some "work"))
              "work"
              [("userName", JStr "test");
               ("emails", JArr [JObj [("value", JStr "a@b.com");
                                      ("primary", JBool true)]])]
              [("value", JStr "a@b.com"); ("primary", JBool true)] []
              eq_refl eq_refl eq_refl eq_refl)
    as (out & props' & fs' & Hout & Hparse & Hemails & Htype & _).
  exists out, props', fs'. repeat split; assumption.
Defined.

Lemma upstream_url_trailing_slash_witness :
  forwardRequest (rt := MiniJSON.runtime)
    (Samples.request "GET" "/Users" None)
    (mkConfig (mkUpstream "https://example.com/" None) (mkServer 8080 None)
              Samples.rules (mkTransforms None))
    None Samples.world
  = forwardRequest (rt := MiniJSON.runtime)
      (Samples.request "GET" "/Users" None)
      (mkConfig (mkUpstream "https://example.com" None) (mkServer 8080 None)
                Samples.rules (mkTransforms None))
      None Samples.world.
Proof.
  exact (ForwardExtras.upstream_url_trailing_slash
           (rt := MiniJSON.runtime) "https://example.com" None
           (mkServer 8080 None) Samples.rules (mkTransforms None)
           (Samples.request "GET" "/Users" None) None Samples.world eq_refl).
Defined.

(** [GET /Users] matches no rule of the test suite; the upstream of the
    sample world is unreachable. *)
Lemma unmatched_request_is_forwarded_witness :
  exists upreq res w',
    fetch (rt := MiniJSON.runtime) (Samples.config None None)
          (Samples.request "GET" "/Users" None) Samples.world
    = (Normal res, w') /\
    w'.(trace) = [EvLog LogProxy "GET" "/Users"; EvForwardRequest None;
                  EvFetch upreq] /\
    res.(status) = 502%N.
Proof.
  destruct (HandlerExtras.unmatched_request_is_forwarded
              (rt := MiniJSON.runtime) (Samples.config None None)
              (Samples.request "GET" "/Users" None) Samples.world None
              eq_refl eq_refl)
    as (upreq & res & w' & Hrun & Htrace & _ & _ & Hfail).
  exists upreq, res, w'. split; [exact Hrun|]. split; [exact Htrace|].
  exact (Hfail _ eq_refl).
Defined.

(** [POST /Users] with the body [null] and the transform configured. *)
Lemma transform_failure_fails_the_request_witness :
  exists w',
    fetch (rt := MiniJSON.runtime) (Samples.config None (Some "work"))
          (Samples.request "POST" "/Users" (Some "null")) Samples.world
    = (Throw TypeError, w') /\
    w'.(trace) = [EvLog LogRequest "POST" "/Users"; EvApplyTransforms "null"].
Proof.
  apply (HandlerExtras.transform_failure_fails_the_request
           (rt := MiniJSON.runtime) (Samples.config None (Some "work"))
           (Samples.request "POST" "/Users" (Some "null")) Samples.world
           "null" eq_refl eq_refl);
    [discriminate | reflexivity].
Defined.

(** [POST /Bulk] without a body, voided by the "silent" rule. *)
Lemma voided_POST_without_properties_witness :
  exists res w',
    fetch (rt := MiniJSON.runtime) (Samples.config None None)
          (Samples.request "POST" "/Bulk" None) Samples.world
    = (Normal res, w') /\
    res.(status) = 201%N /\
    res.(Host.body) =
      Some (Samples.json "{'schemas':['urn:ietf:params:scim:schemas:core:2.0:User'],'id':'id-0','meta':{'resourceType':'User','created':'2024-01-01T00:00:00.000Z','lastModified':'2024-01-01T00:00:01.000Z','location':''}}").
Proof.
  apply (HandlerExtras.voided_POST_without_properties
           (rt := MiniJSON.runtime) (Samples.config None None)
           (Samples.request "POST" "/Bulk" None)
           (mkRule "/Bulk" ["POST"] Silent) Samples.world eq_refl);
    [discriminate | reflexivity | reflexivity].
Defined.

End CoverageExamples.
